(** * Charset switcher: the rule manager and its storage, verified

    A shallow embedding of the extension's background script (the
    [RuleManager], [BackgroundStorage], the menu and message handlers) and of
    the [CharsetStorage] class of [utils.js].

    Conventions of the model.
    - Asynchronous methods are run to completion one after another: an
      [await] is ordinary sequencing, and every method is a function from the
      state of the world to the new state and the value it resolves to.
    - [chrome.storage.local] never throws; the two keys the code uses are two
      fields of the world.
    - [chrome.declarativeNetRequest] is the host's rule engine.  Its dynamic
      rules are a list; [getDynamicRules] never throws; [updateDynamicRules]
      is atomic, refuses an added rule whose id is already installed (the
      error whose message contains [unique ID]) and may refuse a rule for a
      reason of its own ([engineAccepts], a parameter of the development).
    - A plain JS object used as a dictionary is an insertion-ordered
      association list of its own properties, read through the members it
      inherits from [Object.prototype]; a JS [Map] is the same list without
      inheritance; a JS [Set] of numbers is a [gset nat].  Keys are taken not
      to be array indices (no hostname is), which JS would enumerate first.
    - Rule identifiers are natural numbers; charsets and hostnames are
      strings.  Reloading a tab leaves the state alone and is only reported
      by the menu handler. *)

From stdpp Require Import base decidable option list sets gmap strings.
From Stdlib Require Import Lia Sorted ZArith Zify.

#[global] Set Warnings "-clear-no-such-hyp".

Open Scope string_scope.
Open Scope nat_scope.
Open Scope list_scope.

(** ** Insertion-ordered dictionaries (own properties of an object, [Map]) *)

Module Dict.

Section WithValue.
Context {V : Type}.

Fixpoint get (k : string) (d : list (string * V)) : option V :=
  match d with
  | [] => None
  | (k', v) :: t => if decide (k = k') then Some v else get k t
  end.

(** Assignment keeps the position of a key that is present and appends a new
    key at the end. *)
Fixpoint set (k : string) (v : V) (d : list (string * V)) : list (string * V) :=
  match d with
  | [] => [(k, v)]
  | (k', v') :: t =>
      if decide (k = k') then (k, v) :: t else (k', v') :: set k v t
  end.

Fixpoint delete (k : string) (d : list (string * V)) : list (string * V) :=
  match d with
  | [] => []
  | (k', v') :: t =>
      if decide (k = k') then delete k t else (k', v') :: delete k t
  end.

Definition keys (d : list (string * V)) : list string := map fst d.

End WithValue.

End Dict.

(** ** JavaScript values that the storage getters can produce *)

Inductive JsVal : Type :=
| VUndefined
| VNull
| VString (s : string)
| VInherited (member : string).

(** ToBoolean: the empty string, [null] and [undefined] are falsy; objects and
    functions (the inherited members) are truthy. *)
Definition truthy (v : JsVal) : bool :=
  match v with
  | VUndefined | VNull => false
  | VString s => negb (bool_decide (s = ""))
  | VInherited _ => true
  end.

(** [a || b] *)
Definition js_or (a b : JsVal) : JsVal := if truthy a then a else b.

(** The property names every plain object inherits from [Object.prototype]. *)
Definition objectPrototypeKeys : list string :=
  [ "constructor"; "__defineGetter__"; "__defineSetter__"; "hasOwnProperty";
    "__lookupGetter__"; "__lookupSetter__"; "isPrototypeOf";
    "propertyIsEnumerable"; "toString"; "valueOf"; "__proto__";
    "toLocaleString" ].

Module JsObject.

(** [o[k]] *)
Definition get (o : list (string * string)) (k : string) : JsVal :=
  match Dict.get k o with
  | Some s => VString s
  | None =>
      if bool_decide (k ∈ objectPrototypeKeys) then VInherited k else VUndefined
  end.

(** [o[k] = v] for a string [v]: the inherited [__proto__] setter ignores a
    value that is neither an object nor [null]; any other key becomes (or
    updates) an own property. *)
Definition set (o : list (string * string)) (k v : string) : list (string * string) :=
  if bool_decide (k = "__proto__") then o else Dict.set k v o.

(** [delete o[k]] *)
Definition delete (o : list (string * string)) (k : string) : list (string * string) :=
  Dict.delete k o.

(** [Object.entries(o)] *)
Definition entries (o : list (string * string)) : list (string * string) := o.

End JsObject.

(** ** The supported charset labels *)

Definition SUPPORTED_CHARSETS : list (string * string) :=
  [ ("UTF-8", "UTF-8"); ("GBK", "GBK"); ("GB2312", "GB2312");
    ("GB18030", "GB18030"); ("Big5", "Big5"); ("ISO-8859-1", "ISO-8859-1");
    ("Windows-1252", "Windows-1252"); ("Shift_JIS", "Shift_JIS");
    ("EUC-KR", "EUC-KR") ].

(** ** Engine rules *)

Record HeaderInfo : Type := mkHeaderInfo {
  header : string;
  operation : string;
  value : string
}.

Record RuleAction : Type := mkRuleAction {
  action_type : string;
  responseHeaders : list HeaderInfo
}.

Record RuleCondition : Type := mkRuleCondition {
  urlFilter : string;
  resourceTypes : list string
}.

Record Rule : Type := mkRule {
  rule_id : nat;
  priority : nat;
  action : RuleAction;
  condition : RuleCondition
}.

#[global] Instance HeaderInfo_eq_dec : EqDecision HeaderInfo.
Proof. solve_decision. Defined.
#[global] Instance RuleAction_eq_dec : EqDecision RuleAction.
Proof. solve_decision. Defined.
#[global] Instance RuleCondition_eq_dec : EqDecision RuleCondition.
Proof. solve_decision. Defined.
#[global] Instance Rule_eq_dec : EqDecision Rule.
Proof. solve_decision. Defined.

(** The url filter the manager writes for a hostname. *)
Definition urlFilterFor (hostname : string) : string :=
  "*://" +:+ hostname +:+ "/*".

(** The rule literal of [createCharsetRule]. *)
Definition charsetRule (ruleId : nat) (hostname charset : string) : Rule :=
  {| rule_id := ruleId;
     priority := 1;
     action :=
       {| action_type := "modifyHeaders";
          responseHeaders :=
            [ {| header := "Content-Type";
                 operation := "set";
                 value := "text/html; charset=" +:+ charset |} ] |};
     condition :=
       {| urlFilter := urlFilterFor hostname;
          resourceTypes := ["main_frame"; "sub_frame"] |} |}.

(** ** The state of the world *)

Record World : Type := mkWorld {
  (** chrome.declarativeNetRequest: the installed dynamic rules *)
  dynamicRules : list Rule;
  (** chrome.storage.local, key [charset_settings] (absent or an object) *)
  charset_settings : option (list (string * string));
  (** chrome.storage.local, key [active_rules] (absent or an array of pairs) *)
  active_rules : option (list (string * nat));
  (** RuleManager.ruleIdCounter *)
  ruleIdCounter : nat;
  (** RuleManager.activeRules, a [Map] from hostname to rule id *)
  activeRules : list (string * nat);
  (** RuleManager.usedRuleIds, a [Set] of rule ids *)
  usedRuleIds : gset nat
}.

(** The state a freshly started worker has: [new RuleManager()] over whatever
    the engine and the storage hold. *)
Definition newRuleManager (rules : list Rule)
    (settings : option (list (string * string)))
    (saved : option (list (string * nat))) : World :=
  {| dynamicRules := rules; charset_settings := settings;
     active_rules := saved; ruleIdCounter := 1; activeRules := [];
     usedRuleIds := ∅ |}.

(** Field updates. *)
Definition set_dynamicRules (w : World) (rules : list Rule) : World :=
  {| dynamicRules := rules; charset_settings := charset_settings w;
     active_rules := active_rules w; ruleIdCounter := ruleIdCounter w;
     activeRules := activeRules w; usedRuleIds := usedRuleIds w |}.

Definition set_charset_settings (w : World)
    (settings : option (list (string * string))) : World :=
  {| dynamicRules := dynamicRules w; charset_settings := settings;
     active_rules := active_rules w; ruleIdCounter := ruleIdCounter w;
     activeRules := activeRules w; usedRuleIds := usedRuleIds w |}.

Definition set_active_rules (w : World)
    (saved : option (list (string * nat))) : World :=
  {| dynamicRules := dynamicRules w; charset_settings := charset_settings w;
     active_rules := saved; ruleIdCounter := ruleIdCounter w;
     activeRules := activeRules w; usedRuleIds := usedRuleIds w |}.

Definition set_manager (w : World) (counter : nat)
    (active : list (string * nat)) (used : gset nat) : World :=
  {| dynamicRules := dynamicRules w; charset_settings := charset_settings w;
     active_rules := active_rules w; ruleIdCounter := counter;
     activeRules := active; usedRuleIds := used |}.

(** ** The rule engine *)

Inductive EngineError : Type :=
| UniqueIdError   (* "Rule with id N does not have a unique ID." *)
| RuleRejected.   (* any other refusal: malformed rule, quota, ... *)

(** Two engines used in the examples: one that takes every rule, and one that
    refuses a url filter holding a character outside ASCII. *)
Definition acceptAll (rules : list Rule) (r : Rule) : bool := true.

Definition asciiOnly (s : string) : bool :=
  forallb (λ a, Nat.ltb (Ascii.nat_of_ascii a) 128) (String.list_ascii_of_string s).

Definition acceptAsciiFilter (rules : list Rule) (r : Rule) : bool :=
  asciiOnly (urlFilter (condition r)).

(** Rules left behind by an earlier incarnation, with the ids
    [first .. first+n-1]. *)
Definition staleRules (first n : nat) : list Rule :=
  map (λ i, charsetRule i "stale.example" "GBK") (seq first n).

(** [if (ruleId)] on the result of [Map.get] or of [createCharsetRule]:
    [undefined], [null] and [0] are falsy. *)
Definition truthyId (ruleId : option nat) : bool :=
  match ruleId with
  | Some n => negb (Nat.eqb n 0)
  | None => false
  end.

(** [s.replace(pat, repl)] with a string pattern: the first occurrence only. *)
Fixpoint replace_first (pat repl s : string) : string :=
  if String.prefix pat s
  then repl +:+ String.substring (String.length pat)
                  (String.length s - String.length pat) s
  else match s with
       | EmptyString => EmptyString
       | String a s' => String a (replace_first pat repl s')
       end.

(** Messages of [chrome.runtime.onMessage] and the answers sent back. *)
Inductive Message : Type :=
| updateCharset (hostname charset : string)
| removeCharset (hostname : string)
| getCharsetForSiteMsg (hostname : string)
| otherAction (name : string).

Inductive Response : Type :=
| RespSuccess                 (* { success: true } *)
| RespCharset (v : JsVal)     (* { charset: ... } *)
| RespError (msg : string).   (* { error: ... } *)

(** ** Storage classes ([CharsetStorage] and [BackgroundStorage] share the
    code of these three methods) *)

(** [result[this.storageKey] || {}] *)
Definition readSettings (w : World) : list (string * string) :=
  match charset_settings w with Some o => o | None => [] end.

Definition saveCharsetForSite (w : World) (hostname charset : string) : World :=
  let settings := readSettings w in
  set_charset_settings w (Some (JsObject.set settings hostname charset)).

Definition getCharsetForSite (w : World) (hostname : string) : JsVal :=
  let settings := readSettings w in
  js_or (JsObject.get settings hostname) VNull.

Definition removeCharsetForSite (w : World) (hostname : string) : World :=
  let settings := readSettings w in
  set_charset_settings w (Some (JsObject.delete settings hostname)).

Definition saveActiveRules (w : World) (rules : list (string * nat)) : World :=
  set_active_rules w (Some rules).

(** ** The identifier allocator *)

(** [while (this.usedRuleIds.has(this.ruleIdCounter)) this.ruleIdCounter++] *)
Fixpoint skipUsed (fuel : nat) (used : gset nat) (counter : nat) : nat :=
  match fuel with
  | 0 => counter
  | S fuel' =>
      if bool_decide (counter ∈ used) then skipUsed fuel' used (S counter)
      else counter
  end.

(** The loop leaves at most [size used] values behind, so this much fuel lets
    it run to its exit (see [skipUsed_exit]). *)
Definition generateUniqueRuleId (w : World) : World * nat :=
  let ruleId := skipUsed (S (size (usedRuleIds w))) (usedRuleIds w) (ruleIdCounter w) in
  (set_manager w (S ruleId) (activeRules w) ({[ruleId]} ∪ usedRuleIds w), ruleId).

(** [this.usedRuleIds.delete(ruleId)] *)
Definition releaseRuleId (w : World) (ruleId : nat) : World :=
  set_manager w (ruleIdCounter w) (activeRules w) (usedRuleIds w ∖ {[ruleId]}).

(** Allocator operations, for sequences of them. *)
Inductive AllocOp : Type :=
| Allocate
| Release (ruleId : nat).

(** Runs the operations in order; returns the identifiers issued, oldest
    first, and the final state. *)
Fixpoint runAlloc (ops : list AllocOp) (w : World) : list nat * World :=
  match ops with
  | [] => ([], w)
  | Allocate :: rest =>
      let '(w1, ruleId) := generateUniqueRuleId w in
      let '(issued, w2) := runAlloc rest w1 in
      (ruleId :: issued, w2)
  | Release ruleId :: rest => runAlloc rest (releaseRuleId w ruleId)
  end.

(** ** The rule manager, over an engine with its own acceptance test *)

Section RuleManager.

(** What the engine checks on a rule beyond the uniqueness of its id, given
    the rules it holds. *)
Variable engineAccepts : list Rule → Rule → bool.

(** [addRules] of [updateDynamicRules]. *)
Fixpoint addRules (toAdd : list Rule) (rules : list Rule) : EngineError + list Rule :=
  match toAdd with
  | [] => inr rules
  | r :: rest =>
      if bool_decide (rule_id r ∈ map rule_id rules) then inl UniqueIdError
      else if engineAccepts rules r then addRules rest (rules ++ [r])
      else inl RuleRejected
  end.

(** [chrome.declarativeNetRequest.updateDynamicRules({removeRuleIds, addRules})]:
    removal first, then the additions; unknown ids to remove are ignored. *)
Definition updateDynamicRules (removeRuleIds : list nat) (toAdd : list Rule)
    (rules : list Rule) : EngineError + list Rule :=
  addRules toAdd (filter (λ r, rule_id r ∉ removeRuleIds) rules).

(** [RuleManager.getAllRuleIds] *)
Definition getAllRuleIds (w : World) : list nat := map rule_id (dynamicRules w).

(** [RuleManager.initialize] *)
Definition initialize (w : World) : World :=
  let existingRuleIds := getAllRuleIds w in
  let cleared :=
    if Nat.ltb 0 (length existingRuleIds)
    then updateDynamicRules existingRuleIds [] (dynamicRules w)
    else inr (dynamicRules w) in
  match cleared with
  | inr rules => set_manager (set_dynamicRules w rules) 1 [] ∅
  | inl _ => w   (* caught and logged before the reset *)
  end.

(** [RuleManager.removeCharsetRule] *)
Definition removeCharsetRule (w : World) (hostname : string) : World * bool :=
  let ruleId := Dict.get hostname (activeRules w) in
  if truthyId ruleId then
    match ruleId with
    | Some ruleId =>
        match updateDynamicRules [ruleId] [] (dynamicRules w) with
        | inr rules =>
            let w1 := releaseRuleId (set_dynamicRules w rules) ruleId in
            let w2 := set_manager w1 (ruleIdCounter w1)
                        (Dict.delete hostname (activeRules w1)) (usedRuleIds w1) in
            (saveActiveRules w2 (activeRules w2), true)
        | inl _ => (w, false)
        end
    | None => (w, false)
    end
  else (w, false).

(** [RuleManager.createCharsetRule].  The method calls itself when the chosen
    id is already installed; [fuel] bounds the depth of that recursion, and the
    third component of the result counts the retries (it is not part of the
    program's state). *)
Fixpoint createCharsetRuleFuel (fuel : nat) (w : World) (hostname charset : string)
    : option (World * option nat * nat) :=
  match fuel with
  | 0 => None
  | S fuel' =>
      let retry (w' : World) :=
        match createCharsetRuleFuel fuel' w' hostname charset with
        | Some (w'', ruleId, retries) => Some (w'', ruleId, S retries)
        | None => None
        end in
      let w1 := (removeCharsetRule w hostname).1 in
      let '(w2, ruleId) := generateUniqueRuleId w1 in
      let rule := charsetRule ruleId hostname charset in
      let existingRules := dynamicRules w2 in
      match List.find (λ r, Nat.eqb (rule_id r) ruleId) existingRules with
      | Some conflictingRule => retry w2
      | None =>
          match updateDynamicRules [] [rule] (dynamicRules w2) with
          | inr rules =>
              let w3 := set_manager (set_dynamicRules w2 rules) (ruleIdCounter w2)
                          (Dict.set hostname ruleId (activeRules w2)) (usedRuleIds w2) in
              Some (saveActiveRules w3 (activeRules w3), Some ruleId, 0)
          | inl UniqueIdError => retry w2
          | inl RuleRejected => Some (w2, None, 0)
          end
      end
  end.

(** Every retry burns an installed id, so one call per installed rule and one
    more is enough (see [createCharsetRuleFuel_total]). *)
Definition createFuel (w : World) : nat := S (length (dynamicRules w)).

Definition createCharsetRule (w : World) (hostname charset : string)
    : World * option nat :=
  match createCharsetRuleFuel (createFuel w) w hostname charset with
  | Some (w', ruleId, _) => (w', ruleId)
  | None => (w, None)
  end.

(** The number of retries of a call. *)
Definition createRetries (w : World) (hostname charset : string) : nat :=
  match createCharsetRuleFuel (createFuel w) w hostname charset with
  | Some (_, _, retries) => retries
  | None => 0
  end.

(** [RuleManager.restoreSavedRules]; the count is what the method logs. *)
Definition restoreSavedRules (w : World) : World * nat :=
  let w0 := initialize w in
  let settings := readSettings w0 in
  foldl (λ (acc : World * nat) (entry : string * string),
           let '(w', ruleId) := createCharsetRule acc.1 entry.1 entry.2 in
           (w', if truthyId ruleId then S acc.2 else acc.2))
        (w0, 0) (JsObject.entries settings).

(** [MenuManager.handleMenuClick]; [tabHostname] is [new URL(tab.url).hostname],
    [None] when the constructor throws.  The boolean tells whether the tab was
    reloaded. *)
Definition handleMenuClick (w : World) (menuId : string)
    (tabHostname : option string) : World * bool :=
  match tabHostname with
  | None => (w, false)
  | Some hostname =>
      if String.prefix "charset-" menuId && negb (bool_decide (menuId = "charset-reset"))
      then
        let charset := replace_first "charset-" "" menuId in
        if truthy (JsObject.get SUPPORTED_CHARSETS charset) then
          let w1 := (createCharsetRule w hostname charset).1 in
          (saveCharsetForSite w1 hostname charset, true)
        else (w, false)
      else if bool_decide (menuId = "charset-reset") then
        let w1 := (removeCharsetRule w hostname).1 in
        (removeCharsetForSite w1 hostname, true)
      else (w, false)
  end.

(** The [chrome.runtime.onMessage] listener. *)
Definition onMessage (w : World) (message : Message) : World * Response :=
  match message with
  | updateCharset hostname charset =>
      let w1 := (createCharsetRule w hostname charset).1 in
      (saveCharsetForSite w1 hostname charset, RespSuccess)
  | removeCharset hostname =>
      let w1 := (removeCharsetRule w hostname).1 in
      (removeCharsetForSite w1 hostname, RespSuccess)
  | getCharsetForSiteMsg hostname =>
      (w, RespCharset (getCharsetForSite w hostname))
  | otherAction _ => (w, RespError "Unknown action")
  end.

(** Operations of the rule manager, for sequences of them. *)
Inductive ManagerOp : Type :=
| OpInitialize
| OpCreate (hostname charset : string)
| OpRemove (hostname : string)
| OpRestore.

Definition stepOp (w : World) (op : ManagerOp) : World :=
  match op with
  | OpInitialize => initialize w
  | OpCreate hostname charset => (createCharsetRule w hostname charset).1
  | OpRemove hostname => (removeCharsetRule w hostname).1
  | OpRestore => (restoreSavedRules w).1
  end.

Definition runOps (ops : list ManagerOp) (w : World) : World := foldl stepOp w ops.

End RuleManager.

(** ** State predicates used by the theorems *)

(** A rule whose condition is the url filter of [hostname]. *)
Definition ruleFor (hostname : string) (r : Rule) : Prop :=
  urlFilter (condition r) = urlFilterFor hostname.

#[global] Instance ruleFor_dec hostname r : Decision (ruleFor hostname r).
Proof. unfold ruleFor. apply _. Defined.

(** The installed rules that match [hostname]. *)
Definition rulesFor (hostname : string) (w : World) : list Rule :=
  filter (ruleFor hostname) (dynamicRules w).

(** The entries of the in-memory map for [hostname]. *)
Definition entriesFor (hostname : string) (w : World) : list (string * nat) :=
  filter (λ e : string * nat, e.1 = hostname) (activeRules w).

(** The manager and the engine agree: what holds after [initialize] and is
    kept by every operation of the manager. *)
Record Inv (w : World) : Prop := mkInv {
  inv_counter : 1 ≤ ruleIdCounter w;
  inv_used_lt : ∀ i, i ∈ usedRuleIds w → i < ruleIdCounter w;
  inv_keys : NoDup (Dict.keys (activeRules w));
  inv_active : ∀ h i, Dict.get h (activeRules w) = Some i →
     1 ≤ i ∧ i ∈ usedRuleIds w ∧ ∃ c, charsetRule i h c ∈ dynamicRules w;
  inv_ids : NoDup (map rule_id (dynamicRules w));
  inv_tracked : ∀ r, r ∈ dynamicRules w →
     ∃ h c, r = charsetRule (rule_id r) h c ∧
            Dict.get h (activeRules w) = Some (rule_id r)
}.

(** The rules and the map that replaying [entries] builds, numbering from
    [first]. *)
Fixpoint rulesFrom (first : nat) (entries : list (string * string)) : list Rule :=
  match entries with
  | [] => []
  | (hostname, charset) :: rest =>
      charsetRule first hostname charset :: rulesFrom (S first) rest
  end.

Fixpoint activeFrom (first : nat) (entries : list (string * string)) : list (string * nat) :=
  match entries with
  | [] => []
  | (hostname, _) :: rest => (hostname, first) :: activeFrom (S first) rest
  end.

(** The map holds no (truthy) identifier for the hostname: what the first
    step of [createCharsetRule] establishes. *)
Definition Settled (hostname : string) (w : World) : Prop :=
  truthyId (Dict.get hostname (activeRules w)) = false.

(** The state after a successful installation of [ruleId] from [w]. *)
Definition installed (w : World) (ruleId : nat) (hostname charset : string) : World :=
  {| dynamicRules := dynamicRules w ++ [charsetRule ruleId hostname charset];
     charset_settings := charset_settings w;
     active_rules := Some (Dict.set hostname ruleId (activeRules w));
     ruleIdCounter := S ruleId;
     activeRules := Dict.set hostname ruleId (activeRules w);
     usedRuleIds := {[ruleId]} ∪ usedRuleIds w |}.

(** The installed rules whose id is at least [n]. *)
Definition idsFrom (n : nat) (rules : list Rule) : list Rule :=
  filter (λ r, n ≤ rule_id r) rules.

(** A hostname with a character outside ASCII (an e with an acute accent,
    in Latin-1), as a message can carry it. *)
Definition nonAsciiHostname : string :=
  String (Ascii.ascii_of_nat 233) "cole.example".

(** The in-use set holds installed identifiers only. *)
Definition InUseInstalled (w : World) : Prop :=
  ∀ i, i ∈ usedRuleIds w → i ∈ map rule_id (dynamicRules w).

(** ** The rest of the background script and of [utils.js] *)

(** [BackgroundStorage.getActiveRules]: [result[this.rulesKey] || []]. *)
Definition getActiveRules (w : World) : list (string * nat) :=
  match active_rules w with Some rules => rules | None => [] end.

(** [Map.prototype.has] *)
Definition mapHas {V} (k : string) (d : list (string * V)) : bool :=
  match Dict.get k d with Some _ => true | None => false end.

(** [k in o]: an own or an inherited property. *)
Definition js_in (k : string) (o : list (string * string)) : bool :=
  mapHas k o || bool_decide (k ∈ objectPrototypeKeys).

(** The string a template literal makes of a value.  The inherited members
    are native functions, except [__proto__], which reads as
    [Object.prototype] itself. *)
Definition js_toString (v : JsVal) : string :=
  match v with
  | VUndefined => "undefined"
  | VNull => "null"
  | VString s => s
  | VInherited member =>
      if bool_decide (member = "__proto__") then "[object Object]"
      else if bool_decide (member = "constructor")
           then "function Object() { [native code] }"
           else "function " +:+ member +:+ "() { [native code] }"
  end.

(** [CHARSET_NAMES] of the background script. *)
Definition CHARSET_NAMES : list (string * string) :=
  [ ("UTF-8", "Unicode (UTF-8)"); ("GBK", "GBK 编码");
    ("GB2312", "GB2312 (简体中文)"); ("GB18030", "GB18030 (中文国标)");
    ("Big5", "Big5 (繁体中文)"); ("ISO-8859-1", "ISO-8859-1 (西欧)");
    ("Windows-1252", "Windows-1252 (西欧)"); ("Shift_JIS", "Shift_JIS (日文)");
    ("EUC-KR", "EUC-KR (韩文)") ].

(** [MenuManager.createContextMenus]: the value of [this.menuIds] when the
    method is done ([chrome.contextMenus.create] returns the id it is given). *)
Definition createContextMenus : list string :=
  ["charset-switcher-main"]
  ++ map (λ entry : string * string, "charset-" +:+ entry.1) (JsObject.entries CHARSET_NAMES)
  ++ ["charset-separator"; "charset-reset"].

(** [CharsetUtils.isValidCharset] *)
Definition isValidCharset (charset : string) : bool := js_in charset SUPPORTED_CHARSETS.

(** Reasons of [chrome.runtime.onInstalled]. *)
Inductive InstallReason : Type :=
| ReasonInstall
| ReasonUpdate
| ReasonOther.   (* chrome_update, shared_module_update *)

Section Handlers.
Variable engineAccepts : list Rule → Rule → bool.

(** The [chrome.tabs.onUpdated] listener; [complete] is
    [changeInfo.status === 'complete'], [tabHostname] is [None] when [tab.url]
    is missing or does not parse. *)
Definition onTabUpdated (w : World) (complete : bool) (tabHostname : option string) : World :=
  if complete then
    match tabHostname with
    | Some hostname =>
        let savedCharset := getCharsetForSite w hostname in
        if truthy savedCharset && negb (mapHas hostname (activeRules w))
        then (createCharsetRule engineAccepts w hostname (js_toString savedCharset)).1
        else w
    | None => w
    end
  else w.

(** The [chrome.runtime.onInstalled] listener (menus and the welcome tab are
    not part of the state). *)
Definition onInstalled (w : World) (reason : InstallReason) : World :=
  let w1 := initialize engineAccepts w in
  match reason with
  | ReasonInstall => w1
  | ReasonUpdate => (restoreSavedRules engineAccepts w1).1
  | ReasonOther => w1
  end.

(** The [chrome.runtime.onStartup] listener. *)
Definition onStartup (w : World) : World := (restoreSavedRules engineAccepts w).1.

(** [globalThis.resetCharsetExtension]: [initialize], then
    [chrome.storage.local.clear()]. *)
Definition resetCharsetExtension (w : World) : World :=
  set_active_rules (set_charset_settings (initialize engineAccepts w) None) None.

(** [CharsetUtils.applyCharsetToPage] and [resetCharsetForPage], with the
    message they send handled by the background listener; [hostname] is
    [window.location.hostname]. *)
Definition applyCharsetToPage (w : World) (hostname charset : string) : World :=
  (onMessage engineAccepts (saveCharsetForSite w hostname charset)
     (updateCharset hostname charset)).1.

Definition resetCharsetForPage (w : World) (hostname : string) : World :=
  (onMessage engineAccepts (removeCharsetForSite w hostname) (removeCharset hostname)).1.

(** What the background script reacts to. *)
Inductive Event : Type :=
| EvInstalled (reason : InstallReason)
| EvStartup
| EvMenuClick (menuId : string) (tabHostname : option string)
| EvMessage (message : Message)
| EvTabUpdated (complete : bool) (tabHostname : option string).

Definition handleEvent (w : World) (ev : Event) : World :=
  match ev with
  | EvInstalled reason => onInstalled w reason
  | EvStartup => onStartup w
  | EvMenuClick menuId tabHostname => (handleMenuClick engineAccepts w menuId tabHostname).1
  | EvMessage message => (onMessage engineAccepts w message).1
  | EvTabUpdated complete tabHostname => onTabUpdated w complete tabHostname
  end.

Definition runEvents (evs : list Event) (w : World) : World := foldl handleEvent w evs.

End Handlers.

(** The hostname an event carries, if any. *)
Definition eventHostname (ev : Event) : option string :=
  match ev with
  | EvInstalled _ | EvStartup => None
  | EvMenuClick _ tabHostname => tabHostname
  | EvMessage (updateCharset hostname _) => Some hostname
  | EvMessage (removeCharset hostname) => Some hostname
  | EvMessage (getCharsetForSiteMsg hostname) => Some hostname
  | EvMessage (otherAction _) => None
  | EvTabUpdated _ tabHostname => tabHostname
  end.

(** Hostnames that are not named like a member of [Object.prototype]. *)
Definition plainHostnames (evs : list Event) : Prop :=
  ∀ ev hostname, ev ∈ evs → eventHostname ev = Some hostname →
    hostname ∉ objectPrototypeKeys.

(** Every installed rule rewrites to the charset stored for its hostname. *)
Definition RulesFollowIntent (w : World) : Prop :=
  ∀ r, r ∈ dynamicRules w →
    ∃ hostname charset,
      r = charsetRule (rule_id r) hostname charset ∧
      Dict.get hostname (readSettings w) = Some charset.

(** ** The URL encoding helpers

    A JS string is here the list of its UTF-16 code units, each below 65536;
    [None] stands for a thrown exception. *)

Module Codec.

Open Scope N_scope.

(** [String.fromCharCode(n)] for an integer [n]: the code unit [n mod 2^16]. *)
Definition fromCharCode (n : Z) : N := Z.to_N (n mod 65536)%Z.

(** The code units that [.] does not match in a regular expression without
    flags: LF, CR, U+2028, U+2029. *)
Definition isLineTerminator (c : N) : bool :=
  (c =? 10) || (c =? 13) || (c =? 8232) || (c =? 8233).

(** *** Shifted *)

(** [url.replace(/(.)/g, char => String.fromCharCode(char.charCodeAt(0) + 1))] *)
Definition encodeShifted (url : list N) : list N :=
  map (λ c, if isLineTerminator c then c else fromCharCode (Z.of_N c + 1)) url.

(** [encoded.replace(/(.)/g, char => String.fromCharCode(char.charCodeAt(0) - 1))] *)
Definition decodeShifted (encoded : list N) : list N :=
  map (λ c, if isLineTerminator c then c else fromCharCode (Z.of_N c - 1)) encoded.

(** *** Hex *)

(** The digit [d < 16] as a lower-case character. *)
Definition hexDigit (d : N) : N := if d <? 10 then 48 + d else 87 + d.

(** [c.toString(16)] for a code unit: no leading zero, at least one digit. *)
Definition toString16 (c : N) : list N :=
  let d3 := c / 4096 in
  let d2 := (c / 256) mod 16 in
  let d1 := (c / 16) mod 16 in
  let d0 := c mod 16 in
  if 0 <? d3 then [hexDigit d3; hexDigit d2; hexDigit d1; hexDigit d0]
  else if 0 <? d2 then [hexDigit d2; hexDigit d1; hexDigit d0]
  else if 0 <? d1 then [hexDigit d1; hexDigit d0]
  else [hexDigit d0].

(** [s.padStart(2, '0')] *)
Definition padStart2 (s : list N) : list N :=
  match s with
  | [] => [48; 48]
  | [d] => [48; d]
  | _ => s
  end.

(** [url.split('').map(c => c.charCodeAt(0).toString(16).padStart(2, '0')).join('')] *)
Definition encodeHex (url : list N) : list N :=
  flat_map (λ c, padStart2 (toString16 c)) url.

(** [encoded.match(/.{2}/g)]: the matches, left to right; a position where one
    of the two characters is a line terminator is skipped. *)
Fixpoint matchPairs (encoded : list N) : list (N * N) :=
  match encoded with
  | a :: tl =>
      match tl with
      | b :: rest =>
          if isLineTerminator a || isLineTerminator b then matchPairs tl
          else (a, b) :: matchPairs rest
      | [] => []
      end
  | [] => []
  end.

(** The value of a hexadecimal digit of either case. *)
Definition hexValue (c : N) : option N :=
  if (48 <=? c) && (c <=? 57) then Some (c - 48)
  else if (97 <=? c) && (c <=? 102) then Some (c - 87)
  else if (65 <=? c) && (c <=? 70) then Some (c - 55)
  else None.

(** White space as [parseInt] skips it: TAB, LF, VT, FF, CR, SPACE, NBSP, the
    other space separators, U+2028, U+2029 and U+FEFF. *)
Definition isStrWhiteSpace (c : N) : bool :=
  (c =? 9) || (c =? 10) || (c =? 11) || (c =? 12) || (c =? 13) || (c =? 32)
  || (c =? 160) || (c =? 5760) || ((8192 <=? c) && (c <=? 8202))
  || (c =? 8232) || (c =? 8233) || (c =? 8239) || (c =? 8287)
  || (c =? 12288) || (c =? 65279).

(** [parseInt(h, 16)] for a string [h] of two code units; [None] is [NaN]. *)
Definition parseInt16 (a b : N) : option Z :=
  if isStrWhiteSpace a then
    if isStrWhiteSpace b then None
    else match hexValue b with Some v => Some (Z.of_N v) | None => None end
  else if a =? 45 then   (* "-" *)
    match hexValue b with Some v => Some (- Z.of_N v)%Z | None => None end
  else if a =? 43 then   (* "+" *)
    match hexValue b with Some v => Some (Z.of_N v) | None => None end
  else if (a =? 48) && ((b =? 120) || (b =? 88)) then None   (* "0x", "0X" *)
  else
    match hexValue a with
    | Some va =>
        match hexValue b with
        | Some vb => Some (Z.of_N (16 * va + vb))
        | None => Some (Z.of_N va)
        end
    | None => None
    end.

(** [String.fromCharCode(parseInt(h, 16))]: [NaN] gives the code unit 0. *)
Definition hexPairToChar (h : N * N) : N :=
  match parseInt16 h.1 h.2 with
  | Some n => fromCharCode n
  | None => 0
  end.

(** [encoded.match(/.{2}/g).map(...).join('')]; [match] returns [null] when
    nothing matches, and [null.map] throws. *)
Definition decodeHex (encoded : list N) : option (list N) :=
  match matchPairs encoded with
  | [] => None
  | pairs => Some (map hexPairToChar pairs)
  end.

(** *** Base64 ([btoa] and [atob] of the host) *)

Definition base64Char (i : N) : N :=
  if i <? 26 then 65 + i
  else if i <? 52 then 71 + i
  else if i <? 62 then i - 4
  else if i =? 62 then 43
  else 47.

Definition base64Value (c : N) : option N :=
  if (65 <=? c) && (c <=? 90) then Some (c - 65)
  else if (97 <=? c) && (c <=? 122) then Some (c - 71)
  else if (48 <=? c) && (c <=? 57) then Some (c + 4)
  else if c =? 43 then Some 62
  else if c =? 47 then Some 63
  else None.

Fixpoint base64Encode (bytes : list N) : list N :=
  match bytes with
  | a :: tl =>
      match tl with
      | b :: tl' =>
          match tl' with
          | c :: rest =>
              base64Char (a / 4) :: base64Char ((a mod 4) * 16 + b / 16)
              :: base64Char ((b mod 16) * 4 + c / 64) :: base64Char (c mod 64)
              :: base64Encode rest
          | [] =>
              [base64Char (a / 4); base64Char ((a mod 4) * 16 + b / 16);
               base64Char ((b mod 16) * 4); 61]
          end
      | [] => [base64Char (a / 4); base64Char ((a mod 4) * 16); 61; 61]
      end
  | [] => []
  end.

(** [btoa(s)]: throws when a code unit is above 255. *)
Definition btoa (s : list N) : option (list N) :=
  if forallb (λ c, c <? 256) s then Some (base64Encode s) else None.

(** TAB, LF, FF, CR and SPACE. *)
Definition isAsciiWhitespace (c : N) : bool :=
  (c =? 9) || (c =? 10) || (c =? 12) || (c =? 13) || (c =? 32).

(** Removes one or two [=] at the end. *)
Fixpoint stripPadding (s : list N) : list N :=
  match s with
  | [] => []
  | x :: tl =>
      match tl with
      | [] => if x =? 61 then [] else [x]
      | [y] => if y =? 61 then (if x =? 61 then [] else [x]) else [x; y]
      | _ => x :: stripPadding tl
      end
  end.

(** The bytes of a sequence of six-bit values: three per four, and one or two
    for the two or three left at the end, whose spare bits are dropped. *)
Fixpoint sextetsToBytes (l : list N) : list N :=
  match l with
  | p :: tl =>
      match tl with
      | q :: tl' =>
          match tl' with
          | r :: tl'' =>
              match tl'' with
              | t :: rest =>
                  (p * 4 + q / 16) :: ((q mod 16) * 16 + r / 4)
                  :: ((r mod 4) * 64 + t) :: sextetsToBytes rest
              | [] => [p * 4 + q / 16; (q mod 16) * 16 + r / 4]
              end
          | [] => [p * 4 + q / 16]
          end
      | [] => []
      end
  | [] => []
  end.

(** [atob(s)], the forgiving base64 decoding: white space is removed, padding
    is removed when the length is a multiple of four, a length of one more
    than a multiple of four or a character outside the alphabet is an error. *)
Definition atob (s : list N) : option (list N) :=
  let data := filter (λ c, isAsciiWhitespace c = false) s in
  let data := if (N.of_nat (length data)) mod 4 =? 0 then stripPadding data else data in
  if (N.of_nat (length data)) mod 4 =? 1 then None
  else
    match mapM base64Value data with
    | Some sextets => Some (sextetsToBytes sextets)
    | None => None
    end.

(** *** [encodeUrl] and [decodeUrl] *)

Record Encoded : Type := mkEncoded {
  base64 : list N;
  hex : list N;
  shifted : list N
}.

(** [encodeUrl(url)]: [btoa] comes first, so its exception is the function's. *)
Definition encodeUrl (url : list N) : option Encoded :=
  match btoa url with
  | Some b => Some {| base64 := b; hex := encodeHex url; shifted := encodeShifted url |}
  | None => None
  end.

(** [decodeUrl(encoded, type)] *)
Definition decodeUrl (encoded : list N) (type : string) : option (list N) :=
  if bool_decide (type = "base64"%string) then atob encoded
  else if bool_decide (type = "hex"%string) then decodeHex encoded
  else if bool_decide (type = "shifted"%string) then Some (decodeShifted encoded)
  else Some encoded.

(** Code units that the shifted form does not bring back: TAB, FF and U+2027,
    whose successors are line terminators. *)
Definition shiftsOntoLineTerminator (c : N) : bool :=
  (c =? 9) || (c =? 12) || (c =? 8231).

End Codec.

(** ** An engine that checks header values *)

(** declarativeNetRequest refuses a rule whose header value holds a line
    break; a third engine for the examples, and a charset label with a line
    feed in it, as a message can carry it. *)
Definition noLineBreak (s : string) : bool :=
  forallb (λ a, negb (Nat.eqb (Ascii.nat_of_ascii a) 10 || Nat.eqb (Ascii.nat_of_ascii a) 13))
          (String.list_ascii_of_string s).

Definition acceptHeaderValue (rules : list Rule) (r : Rule) : bool :=
  forallb (λ h, noLineBreak (value h)) (responseHeaders (action r)).

Definition lineBreakCharset : string :=
  "GBK" +:+ String (Ascii.ascii_of_nat 10) "x".

(** * Properties *)

(** ** Lists *)

Lemma filter_none {A} (P : A → Prop) `{∀ x, Decision (P x)} (l : list A) :
  (∀ x, x ∈ l → ¬ P x) → filter P l = [].
Proof.
  induction l as [|a l IH]; intros Hall; [done |].
  rewrite filter_cons_False by (apply Hall, list_elem_of_here).
  apply IH. intros x Hx. apply Hall, list_elem_of_further, Hx.
Qed.

Lemma filter_all {A} (P : A → Prop) `{∀ x, Decision (P x)} (l : list A) :
  (∀ x, x ∈ l → P x) → filter P l = l.
Proof.
  induction l as [|a l IH]; intros Hall; [done |].
  rewrite filter_cons_True by (apply Hall, list_elem_of_here).
  f_equal. apply IH. intros x Hx. apply Hall, list_elem_of_further, Hx.
Qed.

(** ** Dictionaries *)

Section DictFacts.
Context {V : Type}.
Implicit Types (d : list (string * V)) (k : string) (v : V).

Lemma dict_get_set_eq d k v : Dict.get k (Dict.set k v d) = Some v.
Proof.
  induction d as [|[k' v'] t IH]; simpl.
  - by rewrite decide_True.
  - destruct (decide (k = k')) as [->|Hne]; simpl.
    + by rewrite decide_True.
    + by rewrite decide_False.
Qed.

Lemma dict_get_set_ne d k k' v : k ≠ k' → Dict.get k' (Dict.set k v d) = Dict.get k' d.
Proof.
  intros Hne. induction d as [|[k0 v0] t IH]; simpl.
  - rewrite decide_False; [done | congruence].
  - destruct (decide (k = k0)) as [->|Hk]; simpl.
    + rewrite !decide_False; [done | congruence | congruence].
    + destruct (decide (k' = k0)); [done | apply IH].
Qed.

Lemma dict_get_delete_eq d k : Dict.get k (Dict.delete k d) = None.
Proof.
  induction d as [|[k' v'] t IH]; simpl; [done |].
  destruct (decide (k = k')) as [->|Hne]; simpl; [done |].
  by rewrite decide_False.
Qed.

Lemma dict_get_delete_ne d k k' : k ≠ k' → Dict.get k' (Dict.delete k d) = Dict.get k' d.
Proof.
  intros Hne. induction d as [|[k0 v0] t IH]; simpl; [done |].
  destruct (decide (k = k0)) as [->|Hk]; simpl.
  - rewrite decide_False; [apply IH | congruence].
  - destruct (decide (k' = k0)); [done | apply IH].
Qed.

Lemma dict_get_None d k : Dict.get k d = None ↔ k ∉ Dict.keys d.
Proof.
  unfold Dict.keys. induction d as [|[k' v'] t IH]; simpl.
  - split; [intros _; apply not_elem_of_nil | done].
  - rewrite not_elem_of_cons. destruct (decide (k = k')) as [->|Hne].
    + split; [done | intros [? _]; done].
    + rewrite IH. tauto.
Qed.

Lemma dict_set_absent d k v : Dict.get k d = None → Dict.set k v d = d ++ [(k, v)].
Proof.
  induction d as [|[k' v'] t IH]; simpl; [done |].
  destruct (decide (k = k')); [done |]. intros H. by rewrite IH.
Qed.

Lemma dict_keys_delete d k k' : k' ∈ Dict.keys (Dict.delete k d) ↔ k' ≠ k ∧ k' ∈ Dict.keys d.
Proof.
  unfold Dict.keys. induction d as [|[k0 v0] t IH]; simpl.
  - split; [by intros ?%elem_of_nil | by intros [_ ?%elem_of_nil]].
  - destruct (decide (k = k0)) as [->|Hk]; simpl.
    + rewrite IH, elem_of_cons. intuition congruence.
    + rewrite !elem_of_cons, IH. intuition congruence.
Qed.

Lemma dict_keys_NoDup_delete d k : NoDup (Dict.keys d) → NoDup (Dict.keys (Dict.delete k d)).
Proof.
  induction d as [|[k0 v0] t IH]; simpl; [done |].
  intros [Hnotin Hnd]%NoDup_cons. destruct (decide (k = k0)); [by apply IH |].
  simpl. apply NoDup_cons. split; [| by apply IH].
  intros Hin. apply dict_keys_delete in Hin. tauto.
Qed.

Lemma dict_keys_set d k v k' : k' ∈ Dict.keys (Dict.set k v d) ↔ k' = k ∨ k' ∈ Dict.keys d.
Proof.
  unfold Dict.keys. induction d as [|[k0 v0] t IH]; simpl.
  - rewrite list_elem_of_singleton. split; [auto | intros [?|?%elem_of_nil]; done].
  - destruct (decide (k = k0)) as [->|Hk]; simpl.
    + rewrite !elem_of_cons. intuition congruence.
    + rewrite !elem_of_cons, IH. intuition congruence.
Qed.

Lemma dict_keys_NoDup_set d k v : NoDup (Dict.keys d) → NoDup (Dict.keys (Dict.set k v d)).
Proof.
  induction d as [|[k0 v0] t IH]; simpl.
  - intros _. apply NoDup_singleton.
  - intros [Hnotin Hnd]%NoDup_cons. destruct (decide (k = k0)) as [->|Hk]; simpl.
    + apply NoDup_cons. done.
    + apply NoDup_cons. split; [| by apply IH].
      intros Hin. apply dict_keys_set in Hin. destruct Hin; congruence.
Qed.

(** With distinct keys, exactly the looked-up entry carries the key. *)
Lemma dict_filter_key d k v :
  NoDup (Dict.keys d) → Dict.get k d = Some v →
  filter (λ e : string * V, e.1 = k) d = [(k, v)].
Proof.
  induction d as [|[k0 v0] t IH]; simpl; [done |].
  intros [Hnotin Hnd]%NoDup_cons. destruct (decide (k = k0)) as [->|Hk].
  - intros [= ->]. rewrite filter_cons_True by done. f_equal.
    apply filter_none. intros [k1 v1] Hin Heq. simpl in Heq. subst k1.
    apply Hnotin. apply (list_elem_of_fmap_2 fst) in Hin. exact Hin.
  - intros Hget. rewrite filter_cons_False by (simpl; congruence). by apply IH.
Qed.

End DictFacts.

(** ** The identifier allocator *)

Lemma skipUsed_ge fuel used counter : counter ≤ skipUsed fuel used counter.
Proof.
  revert counter. induction fuel as [|fuel IH]; intros counter; simpl; [lia |].
  case_bool_decide; [| lia]. specialize (IH (S counter)). lia.
Qed.

(** Every value the loop steps over is in use. *)
Lemma skipUsed_skips fuel used counter k :
  counter ≤ k < skipUsed fuel used counter → k ∈ used.
Proof.
  revert counter. induction fuel as [|fuel IH]; intros counter; simpl; [lia |].
  case_bool_decide as Hin; [| lia]. intros Hk.
  destruct (decide (k = counter)) as [->|Hne]; [done |].
  apply (IH (S counter)). lia.
Qed.

(** With more fuel than there are used values from [counter] on, the loop
    stops because its condition is false, not because the fuel ran out. *)
Lemma skipUsed_exit fuel (used : gset nat) counter :
  size (filter (λ k, counter ≤ k) used) < fuel →
  skipUsed fuel used counter ∉ used.
Proof.
  revert counter. induction fuel as [|fuel IH]; intros counter Hfuel; simpl; [lia |].
  case_bool_decide as Hin; [| done].
  apply IH.
  assert (filter (λ k, S counter ≤ k) used ⊂ filter (λ k, counter ≤ k) used) as Hsub.
  { split.
    - intros k. rewrite !elem_of_filter. intros [? ?]. split; [lia | done].
    - intros Hrev. specialize (Hrev counter).
      rewrite !elem_of_filter in Hrev. destruct Hrev as [? _]; [split; [lia | done] | lia]. }
  apply subset_size in Hsub. lia.
Qed.

Lemma filter_ge_size (used : gset nat) counter :
  size (filter (λ k, counter ≤ k) used) ≤ size used.
Proof. apply subseteq_size. intros k. rewrite elem_of_filter. tauto. Qed.

(** [generateUniqueRuleId], spelled out. *)
Lemma generateUniqueRuleId_spec w :
  let '(w', ruleId) := generateUniqueRuleId w in
  ((ruleId ∉ usedRuleIds w) ∧
   ruleIdCounter w ≤ ruleId ∧
   (∀ k, ruleIdCounter w ≤ k < ruleId → k ∈ usedRuleIds w) ∧
   usedRuleIds w' = {[ruleId]} ∪ usedRuleIds w ∧
   ruleIdCounter w' = S ruleId ∧
   activeRules w' = activeRules w ∧
   dynamicRules w' = dynamicRules w ∧
   charset_settings w' = charset_settings w ∧
   active_rules w' = active_rules w).
Proof.
  unfold generateUniqueRuleId.
  pose proof (skipUsed_exit (S (size (usedRuleIds w))) (usedRuleIds w) (ruleIdCounter w)) as Hexit.
  pose proof (skipUsed_ge (S (size (usedRuleIds w))) (usedRuleIds w) (ruleIdCounter w)) as Hge.
  pose proof (skipUsed_skips (S (size (usedRuleIds w))) (usedRuleIds w) (ruleIdCounter w)) as Hskips.
  pose proof (filter_ge_size (usedRuleIds w) (ruleIdCounter w)) as Hsize.
  remember (skipUsed (S (size (usedRuleIds w))) (usedRuleIds w) (ruleIdCounter w)) as ruleId.
  cbn [set_manager usedRuleIds ruleIdCounter activeRules dynamicRules charset_settings active_rules].
  repeat split; [apply Hexit; lia | exact Hge | exact Hskips].
Qed.

(** When every used id is below the counter the loop does not run. *)
Lemma generateUniqueRuleId_fresh w :
  (∀ i, i ∈ usedRuleIds w → i < ruleIdCounter w) →
  generateUniqueRuleId w =
    (set_manager w (S (ruleIdCounter w)) (activeRules w)
       ({[ruleIdCounter w]} ∪ usedRuleIds w), ruleIdCounter w).
Proof.
  intros Hlt. unfold generateUniqueRuleId.
  assert (skipUsed (S (size (usedRuleIds w))) (usedRuleIds w) (ruleIdCounter w)
          = ruleIdCounter w) as ->; [| done].
  cbn [skipUsed]. rewrite bool_decide_eq_false_2; [done |].
  intros Hin. apply Hlt in Hin. lia.
Qed.

(** Identifiers issued by a run lie between the counter before and after. *)
Lemma runAlloc_bounds ops w :
  let '(issued, w') := runAlloc ops w in
  (ruleIdCounter w ≤ ruleIdCounter w' ∧
   ∀ i, i ∈ issued → ruleIdCounter w ≤ i < ruleIdCounter w').
Proof.
  revert w. induction ops as [|op ops IH]; intros w; cbn [runAlloc].
  - split; [lia | intros i Hi; by apply elem_of_nil in Hi].
  - destruct op as [|r].
    + pose proof (generateUniqueRuleId_spec w) as Hspec.
      destruct (generateUniqueRuleId w) as [w1 ruleId].
      destruct Hspec as (_ & Hge & _ & _ & Hcnt & _).
      specialize (IH w1). destruct (runAlloc ops w1) as [issued w2].
      cbv beta iota in IH |- *.
      destruct IH as [Hmono Hissued]. split; [lia |].
      intros i [->|Hi]%elem_of_cons; [lia |].
      apply Hissued in Hi. lia.
    + specialize (IH (releaseRuleId w r)).
      destruct (runAlloc ops (releaseRuleId w r)) as [issued w2]. exact IH.
Qed.

(** The identifiers a run issues are strictly increasing. *)
Lemma runAlloc_increasing ops w :
  StronglySorted lt (runAlloc ops w).1.
Proof.
  revert w. induction ops as [|op ops IH]; intros w; cbn [runAlloc].
  - constructor.
  - destruct op as [|r].
    + pose proof (generateUniqueRuleId_spec w) as Hspec.
      destruct (generateUniqueRuleId w) as [w1 ruleId].
      destruct Hspec as (_ & _ & _ & _ & Hcnt & _).
      pose proof (runAlloc_bounds ops w1) as Hb. specialize (IH w1).
      destruct (runAlloc ops w1) as [issued w2]. simpl in *.
      constructor; [done |]. apply Forall_forall. intros i Hi.
      apply Hb in Hi. lia.
    + apply IH.
Qed.

Lemma StronglySorted_lt_NoDup (l : list nat) : StronglySorted lt l → NoDup l.
Proof.
  induction 1 as [|a l Hs IH Hall]; [apply NoDup_nil_2 |].
  apply NoDup_cons. split; [| done].
  intros Hin. rewrite Forall_forall in Hall. apply Hall in Hin. lia.
Qed.

(** C3: in every sequence of allocate and release operations, from every
    state: [allocate] returns an identifier that is not in the in-use set,
    reached by advancing the counter over in-use values only, claims it and
    leaves the counter just past it; [release] removes the identifier from the
    in-use set and leaves the counter alone; the counter never decreases and
    the identifiers issued are strictly increasing, so none is issued twice,
    released or not. *)
Theorem allocator_never_reissues :
  (∀ w, let '(w', ruleId) := generateUniqueRuleId w in
        ((ruleId ∉ usedRuleIds w) ∧
         ruleIdCounter w ≤ ruleId ∧
         (∀ k, ruleIdCounter w ≤ k < ruleId → k ∈ usedRuleIds w) ∧
         usedRuleIds w' = {[ruleId]} ∪ usedRuleIds w ∧
         ruleIdCounter w' = S ruleId)) ∧
  (∀ w ruleId, usedRuleIds (releaseRuleId w ruleId) = usedRuleIds w ∖ {[ruleId]} ∧
               ruleIdCounter (releaseRuleId w ruleId) = ruleIdCounter w) ∧
  (∀ ops w, let '(issued, w') := runAlloc ops w in
            (ruleIdCounter w ≤ ruleIdCounter w' ∧
             StronglySorted lt issued ∧
             NoDup issued ∧
             ∀ i, i ∈ issued → ruleIdCounter w ≤ i < ruleIdCounter w')).
Proof.
  split; [| split].
  - intros w. pose proof (generateUniqueRuleId_spec w) as Hspec.
    destruct (generateUniqueRuleId w) as [w' ruleId]. tauto.
  - intros w ruleId. done.
  - intros ops w. pose proof (runAlloc_bounds ops w) as Hb.
    pose proof (runAlloc_increasing ops w) as Hinc.
    destruct (runAlloc ops w) as [issued w']. simpl in Hinc.
    destruct Hb as [Hmono Hissued]. repeat split; try done.
    + by apply StronglySorted_lt_NoDup.
    + by apply Hissued.
    + by apply Hissued.
Qed.

(** ** The settings store *)

Lemma readSettings_set w settings :
  readSettings (set_charset_settings w (Some settings)) = settings.
Proof. done. Qed.

Lemma jsobject_get_own o k : k ∉ objectPrototypeKeys →
  JsObject.get o k = match Dict.get k o with Some s => VString s | None => VUndefined end.
Proof.
  intros Hk. unfold JsObject.get. destruct (Dict.get k o); [done |].
  by rewrite bool_decide_eq_false_2.
Qed.

Lemma jsobject_set_own o k v : k ∉ objectPrototypeKeys →
  JsObject.set o k v = Dict.set k v o.
Proof.
  intros Hk. unfold JsObject.set. rewrite bool_decide_eq_false_2; [done |].
  intros ->. apply Hk. unfold objectPrototypeKeys. set_solver.
Qed.

(** Assigning one property leaves the own properties under other names alone. *)
Lemma jsobject_set_other o k v k' : k' ≠ k →
  Dict.get k' (JsObject.set o k v) = Dict.get k' o.
Proof.
  intros Hne. unfold JsObject.set. case_bool_decide; [done |].
  apply dict_get_set_ne. congruence.
Qed.

(** C10, as the code has it: for a hostname that is not the name of a member
    inherited from [Object.prototype], saving a non-empty charset and reading
    it back returns that charset; saving and removing leave the entries of
    every other hostname as they were; after a removal the hostname reads as
    [null]; a hostname that was never saved reads as [null]. *)
Theorem storage_save_get_remove (w : World) (hostname : string) :
  hostname ∉ objectPrototypeKeys →
  (∀ charset, charset ≠ "" →
     getCharsetForSite (saveCharsetForSite w hostname charset) hostname = VString charset) ∧
  (∀ charset other, other ≠ hostname →
     Dict.get other (readSettings (saveCharsetForSite w hostname charset))
       = Dict.get other (readSettings w)) ∧
  getCharsetForSite (removeCharsetForSite w hostname) hostname = VNull ∧
  (∀ other, other ≠ hostname →
     Dict.get other (readSettings (removeCharsetForSite w hostname))
       = Dict.get other (readSettings w)) ∧
  (Dict.get hostname (readSettings w) = None → getCharsetForSite w hostname = VNull).
Proof.
  intros Hown. repeat split.
  - intros charset Hne. unfold getCharsetForSite, saveCharsetForSite.
    rewrite readSettings_set, jsobject_get_own, jsobject_set_own by done.
    rewrite dict_get_set_eq. unfold js_or, truthy.
    by rewrite bool_decide_eq_false_2.
  - intros charset other Hne. unfold saveCharsetForSite.
    rewrite readSettings_set. by apply jsobject_set_other.
  - unfold getCharsetForSite, removeCharsetForSite.
    rewrite readSettings_set, jsobject_get_own by done. unfold JsObject.delete.
    by rewrite dict_get_delete_eq.
  - intros other Hne. unfold removeCharsetForSite.
    rewrite readSettings_set. unfold JsObject.delete. apply dict_get_delete_ne. congruence.
  - intros Hnone. unfold getCharsetForSite.
    rewrite jsobject_get_own by done. by rewrite Hnone.
Qed.

Lemma storage_save_get_remove_witness :
  ("a.com" ∉ objectPrototypeKeys) ∧
  getCharsetForSite
    (saveCharsetForSite (newRuleManager [] (Some [("b.com", "UTF-8")]) None) "a.com" "GBK")
    "a.com" = VString "GBK".
Proof.
  assert ("a.com" ∉ objectPrototypeKeys) as Hown.
  { apply (bool_decide_unpack _). vm_compute. exact I. }
  split; [exact Hown |].
  apply (proj1 (storage_save_get_remove
                  (newRuleManager [] (Some [("b.com", "UTF-8")]) None) "a.com" Hown)).
  discriminate.
Defined.

(** C10 as stated fails: the empty charset reads back as [null]; a hostname
    named like an inherited member of the settings object reads as that member
    when it was never saved, and [__proto__] cannot be saved at all. *)
Lemma storage_save_get_counterexample :
  (getCharsetForSite (saveCharsetForSite (newRuleManager [] None None) "a.com" "") "a.com"
     = VNull ∧ VNull ≠ VString "") ∧
  (getCharsetForSite (newRuleManager [] None None) "constructor"
     = VInherited "constructor" ∧ VInherited "constructor" ≠ VNull) ∧
  (getCharsetForSite (saveCharsetForSite (newRuleManager [] None None) "__proto__" "GBK")
     "__proto__" = VInherited "__proto__" ∧ VInherited "__proto__" ≠ VString "GBK").
Proof. repeat split; (reflexivity || discriminate). Qed.

(** ** The engine *)

(** Removing one id removes every rule that carries it and nothing else. *)
Lemma remove_one_elem (i : nat) (rules : list Rule) r :
  r ∈ filter (λ r, rule_id r ∉ [i]) rules ↔ rule_id r ≠ i ∧ r ∈ rules.
Proof. rewrite list_elem_of_filter, list_elem_of_singleton. tauto. Qed.

Lemma remove_one_gone (i : nat) (rules : list Rule) :
  i ∉ map rule_id (filter (λ r, rule_id r ∉ [i]) rules).
Proof.
  intros (r & Heq & Hin)%(list_elem_of_fmap_1 rule_id).
  apply remove_one_elem in Hin. destruct Hin as [Hne _]. congruence.
Qed.

Lemma remove_all_nil (rules : list Rule) :
  filter (λ r, rule_id r ∉ map rule_id rules) rules = [].
Proof.
  apply filter_none. intros r Hin Hnot. apply Hnot.
  by apply (list_elem_of_fmap_2 rule_id).
Qed.

Lemma find_conflict_None (rules : list Rule) i :
  List.find (λ r, Nat.eqb (rule_id r) i) rules = None ↔ i ∉ map rule_id rules.
Proof.
  induction rules as [|r rules IH]; simpl.
  - split; [intros _; apply not_elem_of_nil | done].
  - rewrite not_elem_of_cons. destruct (Nat.eqb_spec (rule_id r) i) as [Heq|Hne].
    + split; [done | intros [? _]; congruence].
    + rewrite IH. split; [intros ?; split; [congruence | done] | tauto].
Qed.

Lemma find_conflict_Some (rules : list Rule) i r :
  List.find (λ r, Nat.eqb (rule_id r) i) rules = Some r → i ∈ map rule_id rules.
Proof.
  intros Hfind. destruct (decide (i ∈ map rule_id rules)) as [|Hnot]; [done |].
  apply find_conflict_None in Hnot. congruence.
Qed.

Section EngineFacts.
Variable engineAccepts : list Rule → Rule → bool.

Lemma updateDynamicRules_remove ids rules :
  updateDynamicRules engineAccepts ids [] rules
    = inr (filter (λ r, rule_id r ∉ ids) rules).
Proof. done. Qed.

Lemma updateDynamicRules_add rule rules :
  updateDynamicRules engineAccepts [] [rule] rules =
    if bool_decide (rule_id rule ∈ map rule_id rules) then inl UniqueIdError
    else if engineAccepts rules rule then inr (rules ++ [rule])
    else inl RuleRejected.
Proof.
  unfold updateDynamicRules. rewrite filter_all; [done |].
  intros r _. apply not_elem_of_nil.
Qed.

(** ** [initialize] *)

(** C4: for every state of the engine and of the manager, [initialize] asks
    the engine for the ids of all installed rules and removes them all, so the
    engine lists no rule afterwards, and it resets the counter to its initial
    value 1 and empties the in-use set and the hostname map. *)
Theorem initialize_clears_everything (w : World) :
  dynamicRules (initialize engineAccepts w) = [] ∧
  getAllRuleIds (initialize engineAccepts w) = [] ∧
  ruleIdCounter (initialize engineAccepts w) = 1 ∧
  usedRuleIds (initialize engineAccepts w) = ∅ ∧
  activeRules (initialize engineAccepts w) = [].
Proof.
  unfold initialize, getAllRuleIds.
  destruct (Nat.ltb_spec 0 (length (map rule_id (dynamicRules w)))) as [Hpos|Hzero].
  - rewrite updateDynamicRules_remove, remove_all_nil. done.
  - rewrite length_map in Hzero.
    destruct (dynamicRules w) as [|r rules] eqn:Hrules; [| simpl in Hzero; lia].
    done.
Qed.

Lemma initialize_eq (w : World) :
  initialize engineAccepts w =
    {| dynamicRules := []; charset_settings := charset_settings w;
       active_rules := active_rules w; ruleIdCounter := 1; activeRules := [];
       usedRuleIds := ∅ |}.
Proof.
  unfold initialize, getAllRuleIds.
  destruct (Nat.ltb_spec 0 (length (map rule_id (dynamicRules w)))) as [Hpos|Hzero].
  - rewrite updateDynamicRules_remove, remove_all_nil. done.
  - rewrite length_map in Hzero.
    destruct (dynamicRules w) as [|r rules] eqn:Hrules; [| simpl in Hzero; lia].
    done.
Qed.

(** ** [removeCharsetRule] *)

Lemma removeCharsetRule_absent (w : World) hostname :
  truthyId (Dict.get hostname (activeRules w)) = false →
  removeCharsetRule engineAccepts w hostname = (w, false).
Proof. intros Hfalsy. unfold removeCharsetRule. by rewrite Hfalsy. Qed.

Lemma removeCharsetRule_present (w : World) hostname ruleId :
  Dict.get hostname (activeRules w) = Some ruleId → ruleId ≠ 0 →
  removeCharsetRule engineAccepts w hostname =
    ({| dynamicRules := filter (λ r, rule_id r ∉ [ruleId]) (dynamicRules w);
        charset_settings := charset_settings w;
        active_rules := Some (Dict.delete hostname (activeRules w));
        ruleIdCounter := ruleIdCounter w;
        activeRules := Dict.delete hostname (activeRules w);
        usedRuleIds := usedRuleIds w ∖ {[ruleId]} |}, true).
Proof.
  intros Hget Hne. unfold removeCharsetRule. rewrite Hget. unfold truthyId.
  destruct (Nat.eqb_spec ruleId 0) as [|_]; [done |]. reflexivity.
Qed.

(** C6, as the code has it: when the map has no rule for the hostname,
    [removeCharsetRule] returns [false] and the whole state (engine,
    allocator, map, storage) is what it was; when the map holds an identifier
    for it, the call returns [true], the engine no longer holds a rule with
    that identifier and keeps all others, the identifier leaves the in-use
    set, the hostname leaves the map, and the persisted copy of the map is
    rewritten without it.  The persisted hostname-to-charset map is not
    touched: the method never writes it. *)
Theorem removeCharsetRule_correct (w : World) (hostname : string) :
  (Dict.get hostname (activeRules w) = None →
     removeCharsetRule engineAccepts w hostname = (w, false)) ∧
  (∀ ruleId, Dict.get hostname (activeRules w) = Some ruleId → ruleId ≠ 0 →
     let w' := (removeCharsetRule engineAccepts w hostname).1 in
     (removeCharsetRule engineAccepts w hostname).2 = true ∧
     (ruleId ∉ getAllRuleIds w') ∧
     (∀ r, r ∈ dynamicRules w' ↔ rule_id r ≠ ruleId ∧ r ∈ dynamicRules w) ∧
     usedRuleIds w' = usedRuleIds w ∖ {[ruleId]} ∧
     (ruleId ∉ usedRuleIds w') ∧
     ruleIdCounter w' = ruleIdCounter w ∧
     activeRules w' = Dict.delete hostname (activeRules w) ∧
     Dict.get hostname (activeRules w') = None ∧
     (∀ other, other ≠ hostname →
        Dict.get other (activeRules w') = Dict.get other (activeRules w)) ∧
     active_rules w' = Some (activeRules w') ∧
     charset_settings w' = charset_settings w).
Proof.
  split.
  - intros Hnone. apply removeCharsetRule_absent. by rewrite Hnone.
  - intros ruleId Hget Hne. rewrite (removeCharsetRule_present w hostname ruleId Hget Hne).
    cbn [fst snd]. unfold getAllRuleIds.
    cbn [dynamicRules usedRuleIds ruleIdCounter activeRules active_rules charset_settings].
    split_and!; try done.
    + apply remove_one_gone.
    + intros r. apply remove_one_elem.
    + rewrite elem_of_difference, elem_of_singleton. tauto.
    + apply dict_get_delete_eq.
    + intros other Hother. apply dict_get_delete_ne. congruence.
Qed.

End EngineFacts.

Lemma removeCharsetRule_correct_witness :
  let w := (createCharsetRule acceptAll
              (newRuleManager (staleRules 1 2) (Some [("a.com", "GBK")]) None)
              "a.com" "GBK").1 in
  Dict.get "b.com" (activeRules w) = None ∧
  removeCharsetRule acceptAll w "b.com" = (w, false) ∧
  Dict.get "a.com" (activeRules w) = Some 3 ∧
  (removeCharsetRule acceptAll w "a.com").2 = true ∧
  (3 ∉ getAllRuleIds (removeCharsetRule acceptAll w "a.com").1) ∧
  (3 ∉ usedRuleIds (removeCharsetRule acceptAll w "a.com").1) ∧
  active_rules (removeCharsetRule acceptAll w "a.com").1
    = Some (activeRules (removeCharsetRule acceptAll w "a.com").1) ∧
  charset_settings (removeCharsetRule acceptAll w "a.com").1 = charset_settings w.
Proof.
  cbv zeta.
  destruct (removeCharsetRule_correct acceptAll
              (createCharsetRule acceptAll
                 (newRuleManager (staleRules 1 2) (Some [("a.com", "GBK")]) None)
                 "a.com" "GBK").1 "b.com") as [Habsent _].
  destruct (removeCharsetRule_correct acceptAll
              (createCharsetRule acceptAll
                 (newRuleManager (staleRules 1 2) (Some [("a.com", "GBK")]) None)
                 "a.com" "GBK").1 "a.com") as [_ Hpresent].
  assert (3 ≠ 0) as Hne by lia.
  destruct (Hpresent 3 eq_refl Hne)
    as (Hret & Hgone & _ & _ & Hreleased & _ & _ & _ & _ & Hsaved & Hsettings).
  split; [reflexivity |]. split; [exact (Habsent eq_refl) |]. split; [reflexivity |].
  split; [exact Hret |]. split; [exact Hgone |]. split; [exact Hreleased |].
  split; [exact Hsaved | exact Hsettings].
Defined.

(** C6 as stated fails: after the [updateCharset] message has stored
    [a.com -> GBK] and installed rule 1, [removeCharsetRule] returns [true]
    and removes the rule, but the persisted hostname-to-charset entry is still
    there and still read by [getCharsetForSite]; the next completed load of a
    tab of that hostname installs a rule for it again. *)
Lemma removeCharsetRule_keeps_stored_charset :
  let w := (onMessage acceptAll (initialize acceptAll (newRuleManager [] None None))
              (updateCharset "a.com" "GBK")).1 in
  let w' := (removeCharsetRule acceptAll w "a.com").1 in
  Dict.get "a.com" (activeRules w) = Some 1 ∧
  (removeCharsetRule acceptAll w "a.com").2 = true ∧
  dynamicRules w' = [] ∧
  charset_settings w' = Some [("a.com", "GBK")] ∧
  (getCharsetForSite w' "a.com" = VString "GBK" ∧ VString "GBK" ≠ VNull) ∧
  dynamicRules (onTabUpdated acceptAll w' true (Some "a.com"))
    = [charsetRule 2 "a.com" "GBK"].
Proof. cbv zeta. repeat split; (reflexivity || discriminate). Qed.

(** ** [createCharsetRule] *)

Section CreateFacts.
Variable engineAccepts : list Rule → Rule → bool.

Lemma removeCharsetRule_settles w hostname :
  Settled hostname (removeCharsetRule engineAccepts w hostname).1.
Proof.
  unfold Settled.
  destruct (truthyId (Dict.get hostname (activeRules w))) eqn:Htruthy.
  - destruct (Dict.get hostname (activeRules w)) as [ruleId|] eqn:Hget; [| done].
    assert (ruleId ≠ 0) as Hne.
    { intros ->. done. }
    rewrite (removeCharsetRule_present engineAccepts w hostname ruleId Hget Hne).
    cbn [fst activeRules]. by rewrite dict_get_delete_eq.
  - by rewrite removeCharsetRule_absent.
Qed.

Lemma removeCharsetRule_settled w hostname :
  Settled hostname w → removeCharsetRule engineAccepts w hostname = (w, false).
Proof. apply removeCharsetRule_absent. Qed.

(** One call of the method on a settled state: a retry when the new id is
    installed already, otherwise the installation or its refusal. *)
Lemma createCharsetRuleFuel_settled_step fuel w hostname charset :
  Settled hostname w →
  createCharsetRuleFuel engineAccepts (S fuel) w hostname charset =
    let w2 := (generateUniqueRuleId w).1 in
    let ruleId := (generateUniqueRuleId w).2 in
    if bool_decide (ruleId ∈ map rule_id (dynamicRules w)) then
      match createCharsetRuleFuel engineAccepts fuel w2 hostname charset with
      | Some (w'', r, retries) => Some (w'', r, S retries)
      | None => None
      end
    else if engineAccepts (dynamicRules w) (charsetRule ruleId hostname charset)
    then Some (installed w ruleId hostname charset, Some ruleId, 0)
    else Some (w2, None, 0).
Proof.
  intros Hsettled. cbn [createCharsetRuleFuel].
  rewrite (removeCharsetRule_settled w hostname Hsettled). cbn [fst].
  unfold generateUniqueRuleId. cbv beta iota zeta. cbn [fst snd].
  set (ruleId := skipUsed (S (size (usedRuleIds w))) (usedRuleIds w) (ruleIdCounter w)).
  cbn [set_manager dynamicRules].
  destruct (List.find (λ r, Nat.eqb (rule_id r) ruleId) (dynamicRules w)) as [r|] eqn:Hfind.
  - apply find_conflict_Some in Hfind. by rewrite bool_decide_eq_true_2.
  - apply find_conflict_None in Hfind. rewrite updateDynamicRules_add.
    cbn [charsetRule rule_id]. rewrite bool_decide_eq_false_2 by done.
    destruct (engineAccepts (dynamicRules w) (charsetRule ruleId hostname charset));
      reflexivity.
Qed.

(** The method starts by removing the old rule, and doing that beforehand
    changes nothing. *)
Lemma createCharsetRuleFuel_after_remove fuel w hostname charset :
  createCharsetRuleFuel engineAccepts fuel w hostname charset =
  createCharsetRuleFuel engineAccepts fuel
    (removeCharsetRule engineAccepts w hostname).1 hostname charset.
Proof.
  destruct fuel as [|fuel]; [done |]. cbn [createCharsetRuleFuel].
  by rewrite (removeCharsetRule_settled _ hostname (removeCharsetRule_settles w hostname)).
Qed.

Lemma idsFrom_length rules n : length (idsFrom n rules) ≤ length rules.
Proof. apply length_filter. Qed.

Lemma idsFrom_shrinks rules n m :
  n ≤ m → m ∈ map rule_id rules →
  length (idsFrom (S m) rules) < length (idsFrom n rules).
Proof.
  intros Hle (r & Heq & Hin)%(list_elem_of_fmap_1 rule_id). unfold idsFrom.
  assert (filter (λ r, S m ≤ rule_id r) rules
          = filter (λ r, S m ≤ rule_id r) (filter (λ r, n ≤ rule_id r) rules)) as ->.
  { symmetry. apply list_filter_filter_l. intros x. lia. }
  apply (length_filter_lt _ _ r).
  - apply list_elem_of_filter. split; [lia | done].
  - lia.
Qed.

(** Termination on a settled state, with the number of retries bounded by the
    number of installed ids at or above the counter. *)
Lemma createCharsetRuleFuel_settled_total fuel w hostname charset :
  Settled hostname w →
  length (idsFrom (ruleIdCounter w) (dynamicRules w)) < fuel →
  ∃ w' r retries,
    createCharsetRuleFuel engineAccepts fuel w hostname charset = Some (w', r, retries) ∧
    retries ≤ length (idsFrom (ruleIdCounter w) (dynamicRules w)).
Proof.
  revert w. induction fuel as [|fuel IH]; intros w Hsettled Hfuel; [lia |].
  rewrite createCharsetRuleFuel_settled_step by done. cbv zeta.
  pose proof (generateUniqueRuleId_spec w) as Hspec.
  destruct (generateUniqueRuleId w) as [w2 ruleId] eqn:Hgen. cbn [fst snd].
  destruct Hspec as (_ & Hge & _ & _ & Hcnt & Hact & Hrules & _).
  case_bool_decide as Hconflict.
  - pose proof (idsFrom_shrinks (dynamicRules w) (ruleIdCounter w) ruleId Hge Hconflict) as Hlt.
    destruct (IH w2) as (w' & r & retries & Heq & Hbound).
    + unfold Settled. by rewrite Hact.
    + rewrite Hcnt, Hrules. lia.
    + rewrite Heq. exists w', r, (S retries). split; [done |].
      rewrite Hcnt, Hrules in Hbound. lia.
  - destruct (engineAccepts _ _); eexists _, _, 0; (split; [done | lia]).
Qed.

(** More fuel than needed changes nothing. *)
Lemma createCharsetRuleFuel_more_fuel fuel fuel' w hostname charset res :
  createCharsetRuleFuel engineAccepts fuel w hostname charset = Some res →
  fuel ≤ fuel' →
  createCharsetRuleFuel engineAccepts fuel' w hostname charset = Some res.
Proof.
  revert fuel' w res. induction fuel as [|fuel IH]; intros fuel' w res Hrun Hle; [done |].
  destruct fuel' as [|fuel']; [lia |].
  rewrite createCharsetRuleFuel_after_remove in Hrun |- *.
  pose proof (removeCharsetRule_settles w hostname) as Hsettled.
  rewrite createCharsetRuleFuel_settled_step in Hrun |- * by done.
  cbv zeta in Hrun |- *. case_bool_decide; [| done].
  destruct (createCharsetRuleFuel engineAccepts fuel _ hostname charset)
    as [[[w'' r] retries]|] eqn:Hrec; [| done].
  by rewrite (IH fuel' _ _ Hrec) by lia.
Qed.

(** What a call that ran on a settled state has done. *)
Lemma createCharsetRuleFuel_settled_result fuel w hostname charset w' r retries :
  Settled hostname w →
  createCharsetRuleFuel engineAccepts fuel w hostname charset = Some (w', r, retries) →
  ∃ ruleId,
    ruleIdCounter w + retries ≤ ruleId ∧
    (ruleId ∉ map rule_id (dynamicRules w)) ∧
    (ruleId ∉ usedRuleIds w) ∧
    charset_settings w' = charset_settings w ∧
    match r with
    | Some ruleId' =>
        ruleId' = ruleId ∧
        engineAccepts (dynamicRules w) (charsetRule ruleId hostname charset) = true ∧
        dynamicRules w' = dynamicRules w ++ [charsetRule ruleId hostname charset] ∧
        activeRules w' = Dict.set hostname ruleId (activeRules w) ∧
        active_rules w' = Some (activeRules w') ∧
        ruleIdCounter w' = S ruleId ∧
        usedRuleIds w ⊆ usedRuleIds w' ∧
        ruleId ∈ usedRuleIds w'
    | None =>
        engineAccepts (dynamicRules w) (charsetRule ruleId hostname charset) = false ∧
        dynamicRules w' = dynamicRules w ∧
        activeRules w' = activeRules w ∧
        active_rules w' = active_rules w ∧
        ruleIdCounter w' = S ruleId ∧
        usedRuleIds w ⊆ usedRuleIds w' ∧
        ruleId ∈ usedRuleIds w'
    end.
Proof.
  revert w retries. induction fuel as [|fuel IH]; intros w retries Hsettled Hrun; [done |].
  rewrite createCharsetRuleFuel_settled_step in Hrun by done. cbv zeta in Hrun.
  pose proof (generateUniqueRuleId_spec w) as Hspec.
  destruct (generateUniqueRuleId w) as [w2 ruleId] eqn:Hgen. cbn [fst snd] in Hrun.
  destruct Hspec as (Hfresh & Hge & _ & Hused & Hcnt & Hact & Hrules & Hsettings & Hsaved).
  case_bool_decide as Hconflict.
  - destruct (createCharsetRuleFuel engineAccepts fuel w2 hostname charset)
      as [[[w'' r''] retries'']|] eqn:Hrec; [| done].
    injection Hrun as -> -> <-.
    destruct (IH w2 retries'') as (ruleId' & Hle & Hnotin & Hnotused & Hset & Hres).
    { unfold Settled. by rewrite Hact. }
    { done. }
    exists ruleId'. rewrite Hcnt in Hle. rewrite Hrules in Hnotin, Hres.
    rewrite Hact, Hsaved in Hres. rewrite Hused in Hnotused, Hres.
    split_and!; [lia | done | set_solver | congruence |].
    destruct r; destruct_and!; split_and!; try done; set_solver.
  - destruct (engineAccepts (dynamicRules w) (charsetRule ruleId hostname charset)) eqn:Hacc;
      injection Hrun as <- <- <-; exists ruleId.
    + split_and!; try done; [lia | set_solver | set_solver].
    + rewrite Hused. split_and!; try done; [lia | set_solver | set_solver].
Qed.

(** A property of states kept by the steps of the method is kept by the
    method: the removal of the old rule, the allocation of an identifier that
    collides, the allocation followed by a refusal, and the allocation followed
    by the installation. *)
Lemma createCharsetRuleFuel_preserves (P : World → Prop) fuel w hostname charset w' r retries :
  (∀ w0, P w0 → P (removeCharsetRule engineAccepts w0 hostname).1) →
  (∀ w0, P w0 → Settled hostname w0 →
     (generateUniqueRuleId w0).2 ∈ map rule_id (dynamicRules w0) →
     P (generateUniqueRuleId w0).1) →
  (∀ w0, P w0 → Settled hostname w0 →
     engineAccepts (dynamicRules w0)
       (charsetRule (generateUniqueRuleId w0).2 hostname charset) = false →
     P (generateUniqueRuleId w0).1) →
  (∀ w0, P w0 → Settled hostname w0 →
     (generateUniqueRuleId w0).2 ∉ map rule_id (dynamicRules w0) →
     engineAccepts (dynamicRules w0)
       (charsetRule (generateUniqueRuleId w0).2 hostname charset) = true →
     P (installed w0 (generateUniqueRuleId w0).2 hostname charset)) →
  P w →
  createCharsetRuleFuel engineAccepts fuel w hostname charset = Some (w', r, retries) →
  P w'.
Proof.
  intros Hremove Hconflict Hrefused Hinstall.
  revert w retries. induction fuel as [|fuel IH]; intros w retries HP Hrun; [done |].
  rewrite createCharsetRuleFuel_after_remove in Hrun.
  pose proof (removeCharsetRule_settles w hostname) as Hsettled.
  apply Hremove in HP. revert HP Hsettled Hrun.
  generalize (removeCharsetRule engineAccepts w hostname).1. clear w.
  intros w HP Hsettled Hrun.
  rewrite createCharsetRuleFuel_settled_step in Hrun by done. cbv zeta in Hrun.
  case_bool_decide as Hin.
  - destruct (createCharsetRuleFuel engineAccepts fuel _ hostname charset)
      as [[[w'' r''] retries'']|] eqn:Hrec; [| done].
    injection Hrun as -> -> <-. eapply IH; [| exact Hrec]. by apply Hconflict.
  - destruct (engineAccepts (dynamicRules w) _) eqn:Hacc; injection Hrun as <- <- <-.
    + by apply Hinstall.
    + by apply Hrefused.
Qed.

(** The call always returns: the fuel of [createCharsetRule] is enough, and
    the retries are at most the rules installed. *)
Lemma createCharsetRuleFuel_total w hostname charset :
  ∃ w' r retries,
    createCharsetRuleFuel engineAccepts (createFuel w) w hostname charset
      = Some (w', r, retries) ∧
    retries ≤ length (dynamicRules w).
Proof.
  rewrite createCharsetRuleFuel_after_remove.
  pose proof (removeCharsetRule_settles w hostname) as Hsettled.
  assert (length (dynamicRules (removeCharsetRule engineAccepts w hostname).1)
          ≤ length (dynamicRules w)) as Hlen.
  { unfold removeCharsetRule. destruct (truthyId _); [| done].
    destruct (Dict.get hostname (activeRules w)); [| done].
    rewrite updateDynamicRules_remove. cbn. apply length_filter. }
  revert Hsettled Hlen. generalize (removeCharsetRule engineAccepts w hostname).1.
  intros w1 Hsettled Hlen.
  pose proof (idsFrom_length (dynamicRules w1) (ruleIdCounter w1)) as Hids.
  destruct (createCharsetRuleFuel_settled_total (createFuel w) w1 hostname charset)
    as (w' & r & retries & Hrun & Hbound); [done | unfold createFuel; lia |].
  exists w', r, retries. split; [done | lia].
Qed.

End CreateFacts.

Section RetryFacts.
Variable engineAccepts : list Rule → Rule → bool.

Lemma removeCharsetRule_counter w hostname :
  ruleIdCounter (removeCharsetRule engineAccepts w hostname).1 = ruleIdCounter w.
Proof.
  unfold removeCharsetRule. destruct (truthyId _); [| done].
  destruct (Dict.get hostname (activeRules w)); [| done].
  by rewrite updateDynamicRules_remove.
Qed.

Lemma removeCharsetRule_rules w hostname r :
  r ∈ dynamicRules (removeCharsetRule engineAccepts w hostname).1 → r ∈ dynamicRules w.
Proof.
  unfold removeCharsetRule. destruct (truthyId _); [| done].
  destruct (Dict.get hostname (activeRules w)); [| done].
  rewrite updateDynamicRules_remove. cbn. rewrite list_elem_of_filter. tauto.
Qed.

(** C2, as the code has it: a call whose identifier is already installed calls
    itself again with the next identifier the allocator generates; there is no
    retry counter.  The call nevertheless returns, with the fuel of
    [createCharsetRule] or any larger one, after at most as many retries as the
    engine holds rules, each retry having moved the counter past one more
    identifier; and collisions never make it fail: it returns [null] only when
    the engine refuses the rule itself, and otherwise the rule is installed
    under an identifier that no installed rule had. *)
Theorem createCharsetRule_retries_end (w : World) (hostname charset : string) :
  ∃ w' r retries ruleId,
    (∀ fuel, createFuel w ≤ fuel →
       createCharsetRuleFuel engineAccepts fuel w hostname charset = Some (w', r, retries)) ∧
    createCharsetRule engineAccepts w hostname charset = (w', r) ∧
    createRetries engineAccepts w hostname charset = retries ∧
    retries ≤ length (dynamicRules w) ∧
    ruleIdCounter w + retries ≤ ruleId ∧
    ruleIdCounter w' = S ruleId ∧
    let before := dynamicRules (removeCharsetRule engineAccepts w hostname).1 in
    (ruleId ∉ map rule_id before) ∧
    match r with
    | Some ruleId' =>
        ruleId' = ruleId ∧
        dynamicRules w' = before ++ [charsetRule ruleId hostname charset]
    | None =>
        engineAccepts before (charsetRule ruleId hostname charset) = false ∧
        dynamicRules w' = before
    end.
Proof.
  destruct (createCharsetRuleFuel_total engineAccepts w hostname charset)
    as (w' & r & retries & Hrun & Hbound).
  pose proof Hrun as Hrun'. rewrite createCharsetRuleFuel_after_remove in Hrun'.
  apply createCharsetRuleFuel_settled_result in Hrun';
    [| apply removeCharsetRule_settles].
  destruct Hrun' as (ruleId & Hle & Hnotin & _ & _ & Hres).
  rewrite removeCharsetRule_counter in Hle.
  exists w', r, retries, ruleId. cbv zeta. split_and!; try done.
  - intros fuel Hfuel. by apply (createCharsetRuleFuel_more_fuel _ (createFuel w)).
  - unfold createCharsetRule. by rewrite Hrun.
  - unfold createRetries. by rewrite Hrun.
  - destruct r; tauto.
  - destruct r; tauto.
Qed.

End RetryFacts.

(** On an engine that takes every rule and holds, above rules with smaller
    ids, one stale rule for each of the next [n] ids, a call retries [n]
    times and then installs its rule. *)
Lemma stale_rules_retries n w pre hostname charset fuel :
  Settled hostname w →
  (∀ i, i ∈ usedRuleIds w → i < ruleIdCounter w) →
  (∀ i, i ∈ map rule_id pre → i < ruleIdCounter w) →
  dynamicRules w = pre ++ staleRules (ruleIdCounter w) n →
  n < fuel →
  ∃ w', createCharsetRuleFuel acceptAll fuel w hostname charset
          = Some (w', Some (ruleIdCounter w + n), n).
Proof.
  revert w pre fuel. induction n as [|n IH]; intros w pre fuel Hsettled Hused Hpre Hrules Hfuel;
    (destruct fuel as [|fuel]; [lia |]);
    rewrite createCharsetRuleFuel_settled_step by done;
    rewrite generateUniqueRuleId_fresh by done; cbn [fst snd]; cbv zeta.
  - rewrite bool_decide_eq_false_2.
    + unfold acceptAll. rewrite Nat.add_0_r. by eexists.
    + rewrite Hrules. unfold staleRules. cbn [seq map]. rewrite app_nil_r.
      intros Hin. apply Hpre in Hin. lia.
  - rewrite bool_decide_eq_true_2.
    + set (w2 := set_manager w (S (ruleIdCounter w)) (activeRules w)
                   ({[ruleIdCounter w]} ∪ usedRuleIds w)).
      destruct (IH w2 (pre ++ [charsetRule (ruleIdCounter w) "stale.example" "GBK"]) fuel)
        as (w' & Hrun).
      * done.
      * intros i. cbn. rewrite elem_of_union, elem_of_singleton.
        intros [->|Hi]; [lia |]. apply Hused in Hi. lia.
      * intros i. cbn. rewrite map_app, elem_of_app. cbn.
        rewrite list_elem_of_singleton. intros [Hi| ->]; [| lia]. apply Hpre in Hi. lia.
      * cbn. rewrite Hrules. unfold staleRules. cbn [seq map]. by rewrite <- app_assoc.
      * lia.
      * rewrite Hrun. exists w'.
        replace (ruleIdCounter w + S n) with (ruleIdCounter w2 + n); [done |].
        unfold w2. cbn [set_manager ruleIdCounter]. lia.
    + rewrite Hrules. unfold staleRules. cbn [seq map]. rewrite map_app, elem_of_app.
      right. cbn. apply list_elem_of_here.
Qed.

(** C2 as stated fails: no maximum retry count bounds the retries; with
    [maxRetries + 1] stale rules in the engine a fresh manager retries
    [maxRetries + 1] times (and then succeeds). *)
Lemma retries_have_no_maximum :
  ¬ ∃ maxRetries, ∀ w hostname charset,
      createRetries acceptAll w hostname charset ≤ maxRetries.
Proof.
  intros [maxRetries Hmax].
  specialize (Hmax (newRuleManager (staleRules 1 (S maxRetries)) None None) "a.com" "GBK").
  destruct (stale_rules_retries (S maxRetries)
              (newRuleManager (staleRules 1 (S maxRetries)) None None) [] "a.com" "GBK"
              (createFuel (newRuleManager (staleRules 1 (S maxRetries)) None None)))
    as (w' & Hrun).
  - done.
  - intros i Hi. cbn in Hi. by apply not_elem_of_empty in Hi.
  - intros i Hi. by apply elem_of_nil in Hi.
  - done.
  - unfold createFuel, staleRules. cbn [newRuleManager dynamicRules].
    rewrite length_map, length_seq. lia.
  - unfold createRetries in Hmax. rewrite Hrun in Hmax. lia.
Qed.

(** ** The rule written for a hostname *)

Lemma string_length_app (s t : string) :
  String.length (s +:+ t) = String.length s + String.length t.
Proof. induction s as [|a s IH]; simpl; [done | by rewrite IH]. Qed.

Lemma string_app_inj_r (s1 s2 t : string) : s1 +:+ t = s2 +:+ t → s1 = s2.
Proof.
  revert s2. induction s1 as [|a s1 IH]; intros [|b s2] Heq; simpl in Heq.
  - done.
  - apply (f_equal String.length) in Heq.
    rewrite !string_length_app in Heq. simpl in Heq. lia.
  - apply (f_equal String.length) in Heq.
    rewrite !string_length_app in Heq. simpl in Heq. lia.
  - injection Heq as -> Heq. f_equal. by apply IH.
Qed.

(** Different hostnames get different url filters. *)
Lemma urlFilterFor_inj h1 h2 : urlFilterFor h1 = urlFilterFor h2 → h1 = h2.
Proof.
  unfold urlFilterFor. intros Heq.
  apply (inj (String.app "*://")) in Heq. by apply string_app_inj_r in Heq.
Qed.

Lemma ruleFor_charsetRule hostname ruleId h c :
  ruleFor hostname (charsetRule ruleId h c) ↔ h = hostname.
Proof.
  unfold ruleFor. cbn [charsetRule condition urlFilter]. split.
  - apply urlFilterFor_inj.
  - by intros ->.
Qed.

Section ShapeFacts.
Variable engineAccepts : list Rule → Rule → bool.

Lemma createCharsetRule_run w hostname charset :
  ∃ retries,
    createCharsetRuleFuel engineAccepts (createFuel w) w hostname charset
      = Some ((createCharsetRule engineAccepts w hostname charset).1,
              (createCharsetRule engineAccepts w hostname charset).2, retries).
Proof.
  destruct (createCharsetRuleFuel_total engineAccepts w hostname charset)
    as (w' & r & retries & Hrun & _).
  exists retries. unfold createCharsetRule. by rewrite Hrun.
Qed.

(** C9: when [createCharsetRule] returns an identifier for a hostname and a
    charset label, the engine holds the rule with that identifier whose
    condition is the url filter [*://hostname/*] on the resource types
    [main_frame] and [sub_frame], whose action sets the response header
    [Content-Type] to [text/html; charset=label], and whose priority is 1;
    and this is the only rule the call has added. *)
Theorem installed_rule_shape (w w' : World) (hostname charset : string) (ruleId : nat) :
  createCharsetRule engineAccepts w hostname charset = (w', Some ruleId) →
  ∃ rule,
    rule ∈ dynamicRules w' ∧
    (∀ r, r ∈ dynamicRules w' → r = rule ∨ r ∈ dynamicRules w) ∧
    rule_id rule = ruleId ∧
    priority rule = 1 ∧
    condition rule =
      {| urlFilter := "*://" +:+ hostname +:+ "/*";
         resourceTypes := ["main_frame"; "sub_frame"] |} ∧
    action rule =
      {| action_type := "modifyHeaders";
         responseHeaders :=
           [ {| header := "Content-Type"; operation := "set";
                value := "text/html; charset=" +:+ charset |} ] |}.
Proof.
  intros Hcreate.
  destruct (createCharsetRule_run w hostname charset) as [retries Hrun].
  rewrite Hcreate in Hrun. cbn [fst snd] in Hrun.
  rewrite createCharsetRuleFuel_after_remove in Hrun.
  apply createCharsetRuleFuel_settled_result in Hrun; [| apply removeCharsetRule_settles].
  destruct Hrun as (ruleId' & _ & _ & _ & _ & <- & _ & Hrules & _).
  exists (charsetRule ruleId hostname charset). split_and!; try done.
  - rewrite Hrules, elem_of_app, list_elem_of_singleton. by right.
  - intros r. rewrite Hrules, elem_of_app, list_elem_of_singleton.
    intros [Hin| ->]; [right | by left]. eapply removeCharsetRule_rules, Hin.
Qed.

End ShapeFacts.

Lemma installed_rule_shape_witness :
  ∃ rule,
    rule ∈ dynamicRules (createCharsetRule acceptAll (newRuleManager [] None None) "a.com" "Big5").1 ∧
    condition rule =
      {| urlFilter := "*://a.com/*"; resourceTypes := ["main_frame"; "sub_frame"] |} ∧
    action rule =
      {| action_type := "modifyHeaders";
         responseHeaders :=
           [ {| header := "Content-Type"; operation := "set";
                value := "text/html; charset=Big5" |} ] |}.
Proof.
  destruct (installed_rule_shape acceptAll (newRuleManager [] None None)
              (createCharsetRule acceptAll (newRuleManager [] None None) "a.com" "Big5").1
              "a.com" "Big5" 1 eq_refl)
    as (rule & Hin & _ & _ & _ & Hcond & Hact).
  exists rule. split; [exact Hin |]. split; [exact Hcond | exact Hact].
Defined.

(** ** Properties kept by every operation *)

Section PreservationFacts.
Variable engineAccepts : list Rule → Rule → bool.

Lemma createCharsetRule_preserves (P : World → Prop) w hostname charset :
  (∀ w0, P w0 → P (removeCharsetRule engineAccepts w0 hostname).1) →
  (∀ w0, P w0 → Settled hostname w0 →
     (generateUniqueRuleId w0).2 ∈ map rule_id (dynamicRules w0) →
     P (generateUniqueRuleId w0).1) →
  (∀ w0, P w0 → Settled hostname w0 →
     engineAccepts (dynamicRules w0)
       (charsetRule (generateUniqueRuleId w0).2 hostname charset) = false →
     P (generateUniqueRuleId w0).1) →
  (∀ w0, P w0 → Settled hostname w0 →
     (generateUniqueRuleId w0).2 ∉ map rule_id (dynamicRules w0) →
     engineAccepts (dynamicRules w0)
       (charsetRule (generateUniqueRuleId w0).2 hostname charset) = true →
     P (installed w0 (generateUniqueRuleId w0).2 hostname charset)) →
  P w → P (createCharsetRule engineAccepts w hostname charset).1.
Proof.
  intros Hremove Hconflict Hrefused Hinstall HP.
  destruct (createCharsetRule_run engineAccepts w hostname charset) as [retries Hrun].
  eapply (createCharsetRuleFuel_preserves engineAccepts P); eauto.
Qed.

Lemma restoreSavedRules_preserves (P : World → Prop) w :
  P (initialize engineAccepts w) →
  (∀ w0 hostname charset, P w0 → P (createCharsetRule engineAccepts w0 hostname charset).1) →
  P (restoreSavedRules engineAccepts w).1.
Proof.
  intros Hinit Hcreate. unfold restoreSavedRules.
  generalize (JsObject.entries (readSettings (initialize engineAccepts w))).
  generalize 0. revert Hinit. generalize (initialize engineAccepts w).
  intros w0 HP n entries. revert w0 n HP.
  induction entries as [|[hostname charset] entries IH]; intros w0 n HP; [done |].
  cbn [foldl fst snd].
  pose proof (Hcreate w0 hostname charset HP) as HP'.
  destruct (createCharsetRule engineAccepts w0 hostname charset) as [w1 ruleId].
  by apply IH.
Qed.

Lemma runOps_preserves (P : World → Prop) ops w :
  (∀ w0, P (initialize engineAccepts w0)) →
  (∀ w0 hostname, P w0 → P (removeCharsetRule engineAccepts w0 hostname).1) →
  (∀ w0 hostname charset, P w0 → P (createCharsetRule engineAccepts w0 hostname charset).1) →
  P w → P (runOps engineAccepts ops w).
Proof.
  intros Hinit Hremove Hcreate. revert w.
  induction ops as [|op ops IH]; intros w HP; [done |].
  unfold runOps. cbn [foldl]. apply IH.
  destruct op as [|hostname charset|hostname|]; cbn [stepOp].
  - apply Hinit.
  - by apply Hcreate.
  - by apply Hremove.
  - apply restoreSavedRules_preserves; [apply Hinit | done].
Qed.

(** *** The in-use set against the engine *)

Lemma InUseInstalled_remove w hostname :
  InUseInstalled w → InUseInstalled (removeCharsetRule engineAccepts w hostname).1.
Proof.
  intros HP. destruct (truthyId (Dict.get hostname (activeRules w))) eqn:Htruthy.
  - destruct (Dict.get hostname (activeRules w)) as [ruleId|] eqn:Hget; [| done].
    assert (ruleId ≠ 0) as Hne by (intros ->; done).
    rewrite (removeCharsetRule_present engineAccepts w hostname ruleId Hget Hne).
    intros i. cbn [fst usedRuleIds dynamicRules].
    rewrite elem_of_difference, elem_of_singleton. intros [Hin Hi].
    apply HP in Hin. apply (list_elem_of_fmap_1 rule_id) in Hin.
    destruct Hin as (r & -> & Hr). apply (list_elem_of_fmap_2 rule_id).
    apply remove_one_elem. done.
  - by rewrite removeCharsetRule_absent.
Qed.

(** While the engine refuses nothing, the in-use set stays within the
    installed identifiers through every operation of the manager. *)
Lemma InUseInstalled_runOps ops w :
  (∀ rules r, engineAccepts rules r = true) →
  InUseInstalled w → InUseInstalled (runOps engineAccepts ops w).
Proof.
  intros Haccept. apply runOps_preserves.
  - intros w0 i. rewrite initialize_eq. cbn. intros Hi. by apply not_elem_of_empty in Hi.
  - intros w0 hostname. apply InUseInstalled_remove.
  - intros w0 hostname charset. apply createCharsetRule_preserves.
    + intros w1. apply InUseInstalled_remove.
    + intros w1 HP _ Hin i. cbn. rewrite elem_of_union, elem_of_singleton.
      intros [->|Hi]; [exact Hin | by apply HP].
    + intros w1 _ _ Hrefused. by rewrite Haccept in Hrefused.
    + intros w1 HP _ _ _ i. cbn. rewrite elem_of_union, elem_of_singleton.
      rewrite map_app, elem_of_app. cbn. rewrite list_elem_of_singleton.
      intros [->|Hi]; [by right | left; by apply HP].
Qed.

End PreservationFacts.

(** C8 at a refused installation: the engine refuses the rule for a hostname
    with a character outside ASCII; [createCharsetRule] returns [null], the
    engine holds no rule, and the identifier 1 it had allocated is still in
    the in-use set. *)
Theorem refused_install_leaves_id_in_use :
  let w := initialize acceptAsciiFilter (newRuleManager [] None None) in
  let w' := (createCharsetRule acceptAsciiFilter w nonAsciiHostname "GBK").1 in
  (createCharsetRule acceptAsciiFilter w nonAsciiHostname "GBK").2 = None ∧
  getAllRuleIds w' = [] ∧
  1 ∈ usedRuleIds w' ∧
  ¬ InUseInstalled w'.
Proof.
  cbv zeta. split_and!.
  - reflexivity.
  - reflexivity.
  - apply (bool_decide_unpack _). vm_compute. exact I.
  - intros HP. specialize (HP 1). 
    assert (1 ∈ map rule_id ([] : list Rule)) as Hin; [| by apply elem_of_nil in Hin].
    apply HP. apply (bool_decide_unpack _). vm_compute. exact I.
Qed.

(** ** The handlers *)

(** The menu handler checks the label against the supported set before it
    touches anything, and gives up on a tab whose URL does not parse. *)
Lemma handleMenuClick_rejects engineAccepts w menuId hostname :
  menuId ≠ "charset-reset" →
  truthy (JsObject.get SUPPORTED_CHARSETS (replace_first "charset-" "" menuId)) = false →
  handleMenuClick engineAccepts w menuId (Some hostname) = (w, false) ∧
  handleMenuClick engineAccepts w menuId None = (w, false).
Proof.
  intros Hreset Hunsupported. split; [| done]. unfold handleMenuClick.
  rewrite Hunsupported. rewrite (bool_decide_eq_false_2 _ Hreset).
  by destruct (String.prefix "charset-" menuId).
Qed.

(** C7 at an unsupported label sent as a message: the label is not in the
    supported set and the menu handler would drop it, yet the message handler
    installs a rule for it, stores it as the hostname's charset and answers
    with success. *)
Theorem updateCharset_message_not_validated :
  let w := initialize acceptAll (newRuleManager [] None None) in
  truthy (JsObject.get SUPPORTED_CHARSETS "KLINGON") = false ∧
  handleMenuClick acceptAll w "charset-KLINGON" (Some "a.com") = (w, false) ∧
  (onMessage acceptAll w (updateCharset "a.com" "KLINGON")).2 = RespSuccess ∧
  dynamicRules (onMessage acceptAll w (updateCharset "a.com" "KLINGON")).1
    = [charsetRule 1 "a.com" "KLINGON"] ∧
  charset_settings (onMessage acceptAll w (updateCharset "a.com" "KLINGON")).1
    = Some [("a.com", "KLINGON")] ∧
  activeRules (onMessage acceptAll w (updateCharset "a.com" "KLINGON")).1
    = [("a.com", 1)] ∧
  1 ∈ usedRuleIds (onMessage acceptAll w (updateCharset "a.com" "KLINGON")).1.
Proof.
  cbv zeta. split_and!; reflexivity.
Qed.

(** ** The agreement of manager and engine *)

Lemma NoDup_map_elem_eq {A B} (f : A → B) (l : list A) x y :
  NoDup (map f l) → x ∈ l → y ∈ l → f x = f y → x = y.
Proof.
  induction l as [|a l IH]; cbn [map]; [by intros _ ?%elem_of_nil |].
  intros [Hnotin Hnd]%NoDup_cons [->|Hx]%elem_of_cons [->|Hy]%elem_of_cons Heq.
  - done.
  - exfalso. apply Hnotin. rewrite Heq. by apply (list_elem_of_fmap_2 f).
  - exfalso. apply Hnotin. rewrite <- Heq. by apply (list_elem_of_fmap_2 f).
  - by apply IH.
Qed.

Lemma NoDup_map_filter {A B} (f : A → B) (P : A → Prop) `{∀ x, Decision (P x)} (l : list A) :
  NoDup (map f l) → NoDup (map f (filter P l)).
Proof.
  intros Hnd. apply (sublist_NoDup _ _ Hnd).
  apply (fmap_sublist f). apply sublist_filter.
Qed.

Lemma Inv_settled w hostname :
  Inv w → Settled hostname w → Dict.get hostname (activeRules w) = None.
Proof.
  intros HInv Hsettled. unfold Settled in Hsettled.
  destruct (Dict.get hostname (activeRules w)) as [i|] eqn:Hget; [| done].
  apply (inv_active w HInv) in Hget. destruct Hget as [Hpos _].
  destruct i; [lia | done].
Qed.

(** Two hostnames never share an identifier. *)
Lemma Inv_active_inj w h1 h2 i :
  Inv w → Dict.get h1 (activeRules w) = Some i → Dict.get h2 (activeRules w) = Some i →
  h1 = h2.
Proof.
  intros HInv H1 H2.
  destruct (inv_active w HInv h1 i H1) as (_ & _ & c1 & Hin1).
  destruct (inv_active w HInv h2 i H2) as (_ & _ & c2 & Hin2).
  pose proof (NoDup_map_elem_eq rule_id _ _ _ (inv_ids w HInv) Hin1 Hin2 eq_refl) as Heq.
  apply (f_equal (λ r, urlFilter (condition r))) in Heq.
  by apply urlFilterFor_inj in Heq.
Qed.

Section InvFacts.
Variable engineAccepts : list Rule → Rule → bool.

Lemma Inv_initialize w : Inv (initialize engineAccepts w).
Proof.
  rewrite initialize_eq. split; cbn.
  - lia.
  - intros i Hi. by apply not_elem_of_empty in Hi.
  - apply NoDup_nil_2.
  - done.
  - apply NoDup_nil_2.
  - intros r Hr. by apply elem_of_nil in Hr.
Qed.

Lemma Inv_remove w hostname :
  Inv w → Inv (removeCharsetRule engineAccepts w hostname).1.
Proof.
  intros HInv. destruct (truthyId (Dict.get hostname (activeRules w))) eqn:Htruthy;
    [| by rewrite removeCharsetRule_absent].
  destruct (Dict.get hostname (activeRules w)) as [ruleId|] eqn:Hget; [| done].
  assert (ruleId ≠ 0) as Hne by (intros ->; done).
  rewrite (removeCharsetRule_present engineAccepts w hostname ruleId Hget Hne).
  cbn [fst]. destruct HInv as [Hcnt Hlt Hkeys Hact Hids Htracked]. split; cbn.
  - done.
  - intros i [Hi _]%elem_of_difference. by apply Hlt.
  - by apply dict_keys_NoDup_delete.
  - intros h i Hh.
    assert (h ≠ hostname) as Hhne.
    { intros ->. by rewrite dict_get_delete_eq in Hh. }
    rewrite dict_get_delete_ne in Hh by congruence.
    assert (i ≠ ruleId) as Hine.
    { intros ->. apply Hhne.
      apply (Inv_active_inj w h hostname ruleId); [by split | done | done]. }
    destruct (Hact h i Hh) as (Hpos & Hused & c & Hin). split_and!; [done | |].
    + rewrite elem_of_difference, elem_of_singleton. done.
    + exists c. apply remove_one_elem. done.
  - by apply NoDup_map_filter.
  - intros r [Hrne Hr]%remove_one_elem.
    destruct (Htracked r Hr) as (h & c & Heq & Hh). exists h, c. split; [done |].
    rewrite dict_get_delete_ne; [done |]. intros <-. congruence.
Qed.

Lemma Inv_generate w : Inv w → Inv (generateUniqueRuleId w).1.
Proof.
  intros HInv. rewrite generateUniqueRuleId_fresh by apply (inv_used_lt w HInv).
  cbn [fst]. destruct HInv as [Hcnt Hlt Hkeys Hact Hids Htracked]. split; cbn; try done.
  - lia.
  - intros i. rewrite elem_of_union, elem_of_singleton.
    intros [->|Hi]; [lia |]. apply Hlt in Hi. lia.
  - intros h i Hh. destruct (Hact h i Hh) as (Hpos & Hused & Hin).
    split_and!; [done | | done]. apply elem_of_union. by right.
Qed.

Lemma Inv_installed w hostname charset :
  Inv w → Settled hostname w →
  (generateUniqueRuleId w).2 ∉ map rule_id (dynamicRules w) →
  Inv (installed w (generateUniqueRuleId w).2 hostname charset).
Proof.
  intros HInv Hsettled. pose proof (Inv_settled w hostname HInv Hsettled) as Hnone.
  rewrite generateUniqueRuleId_fresh by apply (inv_used_lt w HInv). cbn [snd].
  intros Hfresh. destruct HInv as [Hcnt Hlt Hkeys Hact Hids Htracked]. split; cbn.
  - lia.
  - intros i. rewrite elem_of_union, elem_of_singleton.
    intros [->|Hi]; [lia |]. apply Hlt in Hi. lia.
  - by apply dict_keys_NoDup_set.
  - intros h i Hh. destruct (decide (hostname = h)) as [<-|Hhne].
    + rewrite dict_get_set_eq in Hh. injection Hh as <-. split_and!; [done | |].
      * apply elem_of_union. left. by apply elem_of_singleton.
      * exists charset. apply elem_of_app. right. by apply list_elem_of_singleton.
    + rewrite dict_get_set_ne in Hh by done.
      destruct (Hact h i Hh) as (Hpos & Hused & c & Hin). split_and!; [done | |].
      * apply elem_of_union. by right.
      * exists c. apply elem_of_app. by left.
  - rewrite map_app. apply NoDup_app. split_and!; [done | | apply NoDup_singleton].
    intros i Hi. cbn. rewrite list_elem_of_singleton. intros ->. done.
  - intros r [Hr| ->%list_elem_of_singleton]%elem_of_app.
    + destruct (Htracked r Hr) as (h & c & Heq & Hh). exists h, c. split; [done |].
      rewrite dict_get_set_ne; [done |]. intros <-. congruence.
    + exists hostname, charset. split; [done |]. cbn. apply dict_get_set_eq.
Qed.

Lemma Inv_create w hostname charset :
  Inv w → Inv (createCharsetRule engineAccepts w hostname charset).1.
Proof.
  apply createCharsetRule_preserves.
  - intros w0. apply Inv_remove.
  - intros w0 HInv _ _. by apply Inv_generate.
  - intros w0 HInv _ _. by apply Inv_generate.
  - intros w0 HInv Hsettled Hfresh _. by apply Inv_installed.
Qed.

(** The agreement holds after [initialize] and through every sequence of
    operations. *)
Lemma Inv_runOps ops w : Inv w → Inv (runOps engineAccepts ops w).
Proof.
  apply runOps_preserves.
  - apply Inv_initialize.
  - intros w0 hostname. apply Inv_remove.
  - intros w0 hostname charset. apply Inv_create.
Qed.

End InvFacts.

(** ** One active rule per hostname *)

Lemma length_le_1_const {A} (l : list A) :
  NoDup l → (∀ x y, x ∈ l → y ∈ l → x = y) → length l ≤ 1.
Proof.
  destruct l as [|a [|b l]]; cbn; [lia | lia |].
  intros [Hnotin _]%NoDup_cons Hall. exfalso. apply Hnotin.
  rewrite (Hall a b); [apply list_elem_of_here | apply list_elem_of_here |].
  apply list_elem_of_further, list_elem_of_here.
Qed.

Lemma length_le_1_elem {A} (l : list A) x : length l ≤ 1 → x ∈ l → l = [x].
Proof.
  destruct l as [|a [|b l]]; cbn; [by intros _ ?%elem_of_nil | | lia].
  intros _ Hx. apply list_elem_of_singleton in Hx. by subst.
Qed.

Lemma Inv_rulesFor_le w hostname : Inv w → length (rulesFor hostname w) ≤ 1.
Proof.
  intros HInv. unfold rulesFor.
  pose proof (NoDup_map_filter rule_id (ruleFor hostname) _ (inv_ids w HInv)) as Hnd.
  rewrite <- (length_map rule_id). apply length_le_1_const; [done |].
  assert (∀ i, i ∈ map rule_id (filter (ruleFor hostname) (dynamicRules w)) →
               Dict.get hostname (activeRules w) = Some i) as Hsame.
  { intros i (r & -> & [Hfor Hr]%list_elem_of_filter)%(list_elem_of_fmap_1 rule_id).
    destruct (inv_tracked w HInv r Hr) as (h & c & Heq & Hh).
    rewrite Heq in Hfor. apply ruleFor_charsetRule in Hfor. by subst h. }
  intros x y Hx%Hsame Hy%Hsame. congruence.
Qed.

Lemma Inv_entriesFor_le w hostname : Inv w → length (entriesFor hostname w) ≤ 1.
Proof.
  intros HInv. unfold entriesFor.
  destruct (Dict.get hostname (activeRules w)) as [i|] eqn:Hget.
  - by rewrite (dict_filter_key _ _ i (inv_keys w HInv) Hget).
  - rewrite filter_none; [cbn; lia |].
    intros [k v] Hin Hk. cbn in Hk. subst k.
    apply dict_get_None in Hget. apply Hget.
    by apply (list_elem_of_fmap_2 fst) in Hin.
Qed.

(** With manager and engine in agreement the counter is not an installed id. *)
Lemma Inv_counter_free w : Inv w → ruleIdCounter w ∉ map rule_id (dynamicRules w).
Proof.
  intros HInv (r & Heq & Hr)%(list_elem_of_fmap_1 rule_id).
  destruct (inv_tracked w HInv r Hr) as (h & c & _ & Hh).
  destruct (inv_active w HInv h _ Hh) as (_ & Hused & _).
  apply (inv_used_lt w HInv) in Hused. lia.
Qed.

Section OneRuleFacts.
Variable engineAccepts : list Rule → Rule → bool.

(** From a state in agreement the method installs its rule at the first
    attempt, under the current value of the counter. *)
Lemma Inv_create_eq w hostname charset :
  Inv w →
  engineAccepts (dynamicRules (removeCharsetRule engineAccepts w hostname).1)
    (charsetRule (ruleIdCounter w) hostname charset) = true →
  createCharsetRule engineAccepts w hostname charset =
    (installed (removeCharsetRule engineAccepts w hostname).1 (ruleIdCounter w)
       hostname charset, Some (ruleIdCounter w)) ∧
  createRetries engineAccepts w hostname charset = 0.
Proof.
  intros HInv Haccept.
  pose proof (Inv_remove engineAccepts w hostname HInv) as HInv1.
  pose proof (removeCharsetRule_settles engineAccepts w hostname) as Hsettled.
  pose proof (removeCharsetRule_counter engineAccepts w hostname) as Hcnt.
  assert (createCharsetRuleFuel engineAccepts (createFuel w) w hostname charset
          = Some (installed (removeCharsetRule engineAccepts w hostname).1
                    (ruleIdCounter w) hostname charset, Some (ruleIdCounter w), 0)) as Hrun.
  { unfold createFuel. rewrite createCharsetRuleFuel_after_remove.
    rewrite createCharsetRuleFuel_settled_step by done.
    rewrite generateUniqueRuleId_fresh by apply (inv_used_lt _ HInv1).
    cbv zeta. cbn [fst snd]. rewrite Hcnt.
    rewrite bool_decide_eq_false_2.
    - by rewrite Haccept.
    - rewrite <- Hcnt. by apply Inv_counter_free. }
  unfold createCharsetRule, createRetries. by rewrite Hrun.
Qed.

End OneRuleFacts.

(** ** [restoreSavedRules] *)

Lemma rulesFrom_length first entries : length (rulesFrom first entries) = length entries.
Proof.
  revert first. induction entries as [|[h c] entries IH]; intros first; cbn; [done |].
  by rewrite IH.
Qed.

Section RestoreFacts.
Variable engineAccepts : list Rule → Rule → bool.
Hypothesis engineAcceptsAll : ∀ rules r, engineAccepts rules r = true.

(** Replaying entries for hostnames the map does not hold, from a state in
    agreement: one rule and one map entry per entry, numbered from the
    counter, every call a success. *)
Lemma replay_entries entries w n :
  Inv w →
  NoDup (Dict.keys entries) →
  (∀ h, h ∈ Dict.keys entries → h ∉ Dict.keys (activeRules w)) →
  let res :=
    foldl (λ (acc : World * nat) (entry : string * string),
             let '(w', ruleId) := createCharsetRule engineAccepts acc.1 entry.1 entry.2 in
             (w', if truthyId ruleId then S acc.2 else acc.2))
          (w, n) entries in
  res.2 = n + length entries ∧
  dynamicRules res.1 = dynamicRules w ++ rulesFrom (ruleIdCounter w) entries ∧
  activeRules res.1 = activeRules w ++ activeFrom (ruleIdCounter w) entries ∧
  ruleIdCounter res.1 = ruleIdCounter w + length entries ∧
  charset_settings res.1 = charset_settings w ∧
  Inv res.1.
Proof.
  cbv zeta. revert w n.
  induction entries as [|[hostname charset] entries IH]; intros w n HInv Hnd Hfresh.
  - cbn. rewrite !app_nil_r, !Nat.add_0_r. done.
  - cbn [foldl fst snd].
    apply NoDup_cons in Hnd. destruct Hnd as [Hnotin Hnd].
    assert (Dict.get hostname (activeRules w) = None) as Hnone.
    { apply dict_get_None, Hfresh. apply list_elem_of_here. }
    assert (removeCharsetRule engineAccepts w hostname = (w, false)) as Hremove.
    { apply removeCharsetRule_absent. by rewrite Hnone. }
    destruct (Inv_create_eq engineAccepts w hostname charset HInv (engineAcceptsAll _ _))
      as [Hcreate _].
    pose proof (Inv_create engineAccepts w hostname charset HInv) as HInv1.
    rewrite Hcreate in HInv1 |- *. rewrite Hremove in HInv1 |- *. cbn [fst snd] in HInv1 |- *.
    assert (truthyId (Some (ruleIdCounter w)) = true) as ->.
    { pose proof (inv_counter w HInv). cbn. by destruct (ruleIdCounter w); [lia |]. }
    destruct (IH (installed w (ruleIdCounter w) hostname charset) (S n) HInv1 Hnd)
      as (Hcount & Hrules & Hactive & Hcnt & Hsettings & HInv').
    { intros h Hh. cbn [installed activeRules]. rewrite dict_keys_set.
      intros [->|Hin]; [done |]. revert Hin. apply Hfresh. by apply list_elem_of_further. }
    cbn [installed dynamicRules activeRules ruleIdCounter charset_settings] in *.
    split_and!; try done.
    + rewrite Hcount. cbn. lia.
    + rewrite Hrules. cbn [rulesFrom]. by rewrite <- app_assoc.
    + rewrite Hactive. rewrite dict_set_absent by done. cbn [activeFrom].
      by rewrite <- app_assoc.
    + rewrite Hcnt. cbn. lia.
Qed.

(** What a restore leaves behind, in terms of the stored entries. *)
Lemma restoreSavedRules_result (w : World) :
  NoDup (Dict.keys (readSettings w)) →
  (restoreSavedRules engineAccepts w).2 = length (readSettings w) ∧
  dynamicRules (restoreSavedRules engineAccepts w).1 = rulesFrom 1 (readSettings w) ∧
  activeRules (restoreSavedRules engineAccepts w).1 = activeFrom 1 (readSettings w) ∧
  ruleIdCounter (restoreSavedRules engineAccepts w).1 = 1 + length (readSettings w) ∧
  charset_settings (restoreSavedRules engineAccepts w).1 = charset_settings w ∧
  Inv (restoreSavedRules engineAccepts w).1.
Proof.
  intros Hnd. unfold restoreSavedRules, JsObject.entries.
  pose proof (Inv_initialize engineAccepts w) as HInv0.
  rewrite initialize_eq in HInv0 |- *.
  set (w0 := {| dynamicRules := []; charset_settings := charset_settings w;
                active_rules := active_rules w; ruleIdCounter := 1;
                activeRules := []; usedRuleIds := ∅ |}) in *.
  change (readSettings w0) with (readSettings w).
  destruct (replay_entries (readSettings w) w0 0 HInv0 Hnd)
    as (Hcount & Hrules & Hactive & Hcnt & Hset & HInv).
  { intros h _. apply not_elem_of_nil. }
  done.
Qed.

(** C5: [restoreSavedRules] first initializes, whatever the engine and the
    manager held, then replays the stored hostname-to-charset map entry by
    entry through [createCharsetRule]: on an engine that refuses nothing, the
    engine ends with exactly one rule per stored entry, with the entry's
    hostname and charset and the identifiers 1, 2, ... in the order of the
    entries, the map with the matching entries, and the count of successes is
    the number of entries; the stored intent is not touched.  For the intent
    [{a.com: GBK, b.com: UTF-8}] these are the two rules for [a.com] with
    [GBK] and for [b.com] with [UTF-8], whatever the engine held before. *)
Theorem restoreSavedRules_replays_intent (w : World) :
  NoDup (Dict.keys (readSettings w)) →
  let entries := readSettings w in
  let w' := (restoreSavedRules engineAccepts w).1 in
  restoreSavedRules engineAccepts w
    = restoreSavedRules engineAccepts (initialize engineAccepts w) ∧
  (restoreSavedRules engineAccepts w).2 = length entries ∧
  dynamicRules w' = rulesFrom 1 entries ∧
  length (dynamicRules w') = length entries ∧
  activeRules w' = activeFrom 1 entries ∧
  ruleIdCounter w' = 1 + length entries ∧
  charset_settings w' = charset_settings w ∧
  (charset_settings w = Some [("a.com", "GBK"); ("b.com", "UTF-8")] →
     dynamicRules w' = [charsetRule 1 "a.com" "GBK"; charsetRule 2 "b.com" "UTF-8"] ∧
     (restoreSavedRules engineAccepts w).2 = 2).
Proof.
  intros Hnd. cbv zeta.
  destruct (restoreSavedRules_result w Hnd)
    as (Hcount & Hrules & Hactive & Hcnt & Hset & HInv).
  split_and!; try done.
  - unfold restoreSavedRules. by rewrite !initialize_eq.
  - by rewrite Hrules, rulesFrom_length.
  - intros Hsettings. rewrite Hrules, Hcount. unfold readSettings. by rewrite Hsettings.
Qed.

End RestoreFacts.

(** The case of the specification: the intent [{a.com: GBK, b.com: UTF-8}]
    over an engine that still holds three stale rules. *)
Lemma restoreSavedRules_replays_intent_witness :
  let w := newRuleManager (staleRules 5 3)
             (Some [("a.com", "GBK"); ("b.com", "UTF-8")]) None in
  NoDup (Dict.keys (readSettings w)) ∧
  dynamicRules (restoreSavedRules acceptAll w).1
    = [charsetRule 1 "a.com" "GBK"; charsetRule 2 "b.com" "UTF-8"] ∧
  (restoreSavedRules acceptAll w).2 = 2.
Proof.
  cbv zeta.
  assert (NoDup (Dict.keys (readSettings
            (newRuleManager (staleRules 5 3)
               (Some [("a.com", "GBK"); ("b.com", "UTF-8")]) None)))) as Hnd.
  { apply (bool_decide_unpack _). vm_compute. exact I. }
  split; [exact Hnd |].
  destruct (restoreSavedRules_replays_intent acceptAll (λ _ _, eq_refl)
              (newRuleManager (staleRules 5 3)
                 (Some [("a.com", "GBK"); ("b.com", "UTF-8")]) None) Hnd)
    as (_ & Hcount & Hrules & _).
  split; [exact Hrules | exact Hcount].
Defined.

(** * The rest of the code *)

(** ** The URL encoding helpers *)

Ltac div_lia := zify; Z.to_euclidean_division_equations; lia.

(** A property checked on every number below a bound holds below it. *)
Lemma N_forall_below (P : N → bool) (n : nat) :
  forallb P (map N.of_nat (seq 0 n)) = true →
  ∀ d : N, (d < N.of_nat n)%N → P d = true.
Proof.
  intros Hall d Hd. rewrite forallb_forall in Hall. apply Hall.
  apply in_map_iff. exists (N.to_nat d). split; [lia |].
  apply in_seq. lia.
Qed.

Section CodecFacts.
Import Codec.
Open Scope N_scope.

Lemma isLineTerminator_spec c :
  isLineTerminator c = true ↔ c = 10 ∨ c = 13 ∨ c = 8232 ∨ c = 8233.
Proof.
  unfold isLineTerminator. rewrite !orb_true_iff, !N.eqb_eq. tauto.
Qed.

Lemma shiftsOntoLineTerminator_spec c :
  shiftsOntoLineTerminator c = true ↔ c = 9 ∨ c = 12 ∨ c = 8231.
Proof.
  unfold shiftsOntoLineTerminator. rewrite !orb_true_iff, !N.eqb_eq. tauto.
Qed.

(** One code unit through the shifted form and back. *)
Lemma shifted_unit c :
  c < 65536 →
  let e := if isLineTerminator c then c else fromCharCode (Z.of_N c + 1) in
  (if isLineTerminator e then e else fromCharCode (Z.of_N e - 1)) = c
  ↔ shiftsOntoLineTerminator c = false.
Proof.
  intros Hc. cbv zeta. rewrite <- not_true_iff_false, shiftsOntoLineTerminator_spec.
  destruct (isLineTerminator c) eqn:Hlt.
  - rewrite Hlt. apply isLineTerminator_spec in Hlt. split; [lia | done].
  - apply not_true_iff_false in Hlt. rewrite isLineTerminator_spec in Hlt.
    unfold fromCharCode.
    destruct (isLineTerminator (Z.to_N ((Z.of_N c + 1) mod 65536))) eqn:Hlt'.
    + apply isLineTerminator_spec in Hlt'. split; [div_lia | div_lia].
    + apply not_true_iff_false in Hlt'. rewrite isLineTerminator_spec in Hlt'.
      split; [div_lia | div_lia].
Qed.

Lemma shifted_roundtrip url :
  (∀ c, c ∈ url → c < 65536) →
  decodeShifted (encodeShifted url) = url
  ↔ ∀ c, c ∈ url → shiftsOntoLineTerminator c = false.
Proof.
  unfold decodeShifted, encodeShifted.
  induction url as [|c url IH]; intros Hunits.
  - split; [intros _ c Hc; by apply elem_of_nil in Hc | done].
  - cbn [map].
    pose proof (shifted_unit c (Hunits c (list_elem_of_here _ _))) as Hunit.
    cbv zeta in Hunit.
    assert (∀ c', c' ∈ url → c' < 65536) as Hunits'.
    { intros c' Hc'. apply Hunits. by apply list_elem_of_further. }
    specialize (IH Hunits'). split.
    + intros Heq. injection Heq as Hhead Htail.
      intros c' [->|Hc']%elem_of_cons; [by apply Hunit | by apply IH].
    + intros Hall. f_equal.
      * apply Hunit, Hall, list_elem_of_here.
      * apply IH. intros c' Hc'. by apply Hall, list_elem_of_further.
Qed.

(** X1: the shifted form of a URL decodes to the URL exactly when the URL has
    no TAB, no form feed and no U+2027: these become line terminators, which
    the decoder's [.] does not match, so they come back one too high. *)
Theorem shifted_decodes_unless_shifted_onto_line_terminator (url : list N) :
  (∀ c, c ∈ url → c < 65536) →
  decodeUrl (encodeShifted url) "shifted" = Some url
  ↔ ∀ c, c ∈ url → shiftsOntoLineTerminator c = false.
Proof.
  intros Hunits. unfold decodeUrl. cbn.
  rewrite <- (shifted_roundtrip url Hunits). split; [by intros [= ->] | by intros ->].
Qed.

(** *** Hex *)

Lemma hexDigit_cases d :
  d < 16 →
  hexValue (hexDigit d) = Some d ∧
  isLineTerminator (hexDigit d) = false ∧
  isStrWhiteSpace (hexDigit d) = false ∧
  (hexDigit d =? 45) = false ∧ (hexDigit d =? 43) = false ∧
  (hexDigit d =? 120) = false ∧ (hexDigit d =? 88) = false.
Proof.
  intros Hd.
  pose proof (N_forall_below
    (λ d, bool_decide (hexValue (hexDigit d) = Some d)
          && negb (isLineTerminator (hexDigit d))
          && negb (isStrWhiteSpace (hexDigit d))
          && negb (hexDigit d =? 45) && negb (hexDigit d =? 43)
          && negb (hexDigit d =? 120) && negb (hexDigit d =? 88))
    16 eq_refl d Hd) as Hall.
  cbv beta in Hall. rewrite !andb_true_iff, !negb_true_iff in Hall.
  destruct Hall as ((((((Hval & ?) & ?) & ?) & ?) & ?) & ?).
  apply bool_decide_eq_true in Hval. done.
Qed.

(** Two hex digits read back as the number they spell. *)
Lemma hexPairToChar_digits a b :
  a < 16 → b < 16 → hexPairToChar (hexDigit a, hexDigit b) = 16 * a + b.
Proof.
  intros Ha Hb.
  destruct (hexDigit_cases a Ha) as (Hva & _ & Hwa & Hma & Hpa & _).
  destruct (hexDigit_cases b Hb) as (Hvb & _ & _ & _ & _ & Hxb & HXb).
  unfold hexPairToChar, parseInt16. cbn [fst snd].
  rewrite Hwa, Hma, Hpa, Hxb, HXb, Hva, Hvb. cbn [orb andb].
  rewrite andb_false_r. unfold fromCharCode. div_lia.
Qed.

Lemma encodeHex_byte c :
  c < 256 → padStart2 (toString16 c) = [hexDigit (c / 16); hexDigit (c mod 16)].
Proof.
  intros Hc. unfold toString16.
  assert (c / 4096 = 0) as -> by div_lia.
  assert ((c / 256) mod 16 = 0) as -> by div_lia.
  assert ((c / 16) mod 16 = c / 16) as -> by div_lia.
  cbn. destruct (N.ltb_spec 0 (c / 16)) as [Hpos|Hzero]; cbn; [done |].
  assert (c / 16 = 0) as -> by div_lia. done.
Qed.

Lemma matchPairs_encodeHex url :
  (∀ c, c ∈ url → c < 256) →
  map hexPairToChar (matchPairs (encodeHex url)) = url ∧
  length (matchPairs (encodeHex url)) = length url.
Proof.
  induction url as [|c url IH]; intros Hbytes; [done |].
  assert (c < 256) as Hc by apply Hbytes, list_elem_of_here.
  assert (∀ c', c' ∈ url → c' < 256) as Hbytes'.
  { intros c' Hc'. by apply Hbytes, list_elem_of_further. }
  destruct (IH Hbytes') as [IHmap IHlen].
  unfold encodeHex in *. cbn [flat_map]. rewrite encodeHex_byte by done.
  cbn [app matchPairs].
  assert (c / 16 < 16) as Hhi by div_lia.
  assert (c mod 16 < 16) as Hlo by div_lia.
  destruct (hexDigit_cases _ Hhi) as (_ & -> & _).
  destruct (hexDigit_cases _ Hlo) as (_ & -> & _).
  cbn [orb map length]. rewrite hexPairToChar_digits by done.
  rewrite IHmap, IHlen. split; [f_equal; div_lia | done].
Qed.

Lemma hex_roundtrip url :
  (∀ c, c ∈ url → c < 256) →
  decodeHex (encodeHex url) = match url with [] => None | _ => Some url end.
Proof.
  intros Hbytes. destruct (matchPairs_encodeHex url Hbytes) as [Hmap Hlen].
  unfold decodeHex. destruct url as [|c url]; [done |].
  destruct (matchPairs (encodeHex (c :: url))) as [|p pairs] eqn:Hpairs; [done |].
  by rewrite Hmap.
Qed.
(** *** Base64 *)

Lemma base64Char_cases i :
  i < 64 →
  base64Value (base64Char i) = Some i ∧
  isAsciiWhitespace (base64Char i) = false ∧
  (base64Char i =? 61) = false.
Proof.
  intros Hi.
  pose proof (N_forall_below
    (λ i, bool_decide (base64Value (base64Char i) = Some i)
          && negb (isAsciiWhitespace (base64Char i))
          && negb (base64Char i =? 61))
    64 eq_refl i Hi) as Hall.
  cbv beta in Hall. rewrite !andb_true_iff, !negb_true_iff in Hall.
  destruct Hall as ((Hval & ?) & ?). apply bool_decide_eq_true in Hval. done.
Qed.

Lemma stripPadding_cons x l :
  (x =? 61) = false → stripPadding (x :: l) = x :: stripPadding l.
Proof.
  intros Hx. destruct l as [|y [|z l]]; cbn [stripPadding]; rewrite ?Hx; [done | | done].
  by destruct (y =? 61).
Qed.

Lemma list_ind3 {A} (P : list A → Prop) :
  P [] → (∀ a, P [a]) → (∀ a b, P [a; b]) →
  (∀ a b c l, P l → P (a :: b :: c :: l)) →
  ∀ l, P l.
Proof.
  intros H0 H1 H2 H3 l.
  assert (P l ∧ (∀ a, P (a :: l)) ∧ (∀ a b, P (a :: b :: l))) as (? & _); [| done].
  induction l as [|x l (IH0 & IH1 & IH2)]; [by split_and! |].
  split_and!; [apply IH1 | intros a; apply IH2 | intros a b; by apply H3].
Qed.

(** The sextets of three bytes, of two and of one are below 64. *)
Lemma sextets_below a b c :
  a < 256 → b < 256 → c < 256 →
  a / 4 < 64 ∧ (a mod 4) * 16 + b / 16 < 64 ∧ (b mod 16) * 4 + c / 64 < 64 ∧
  c mod 64 < 64 ∧ (a mod 4) * 16 < 64 ∧ (b mod 16) * 4 < 64.
Proof. intros. split_and!; div_lia. Qed.

(** The encoding has no white space and a length that is a multiple of four. *)
Lemma base64Encode_shape bytes :
  Forall (λ c, c < 256) bytes →
  filter (λ c, isAsciiWhitespace c = false) (base64Encode bytes) = base64Encode bytes ∧
  ∃ k : nat, length (base64Encode bytes) = (4 * k)%nat.
Proof.
  induction bytes as [| a | a b | a b c rest IH] using list_ind3; intros Hbytes.
  - split; [done | by exists 0%nat].
  - apply Forall_cons in Hbytes as [Ha _].
    destruct (sextets_below a 0 0 Ha) as (H1 & _ & _ & _ & H2 & _); [lia | lia |].
    cbn [base64Encode]. split; [| by exists 1%nat].
    rewrite !filter_cons_True; [done | done | done | | ];
      by first [apply (base64Char_cases _ H2) | apply (base64Char_cases _ H1)].
  - apply Forall_cons in Hbytes as [Ha Hbytes]. apply Forall_cons in Hbytes as [Hb _].
    destruct (sextets_below a b 0 Ha Hb) as (H1 & H2 & _ & _ & _ & H3); [lia |].
    cbn [base64Encode]. split; [| by exists 1%nat].
    rewrite !filter_cons_True; [done | done | | | ];
      by first [apply (base64Char_cases _ H3) | apply (base64Char_cases _ H2)
               | apply (base64Char_cases _ H1)].
  - apply Forall_cons in Hbytes as [Ha Hbytes]. apply Forall_cons in Hbytes as [Hb Hbytes].
    apply Forall_cons in Hbytes as [Hc Hbytes].
    destruct (sextets_below a b c Ha Hb Hc) as (H1 & H2 & H3 & H4 & _).
    destruct (IH Hbytes) as [IHfilter [k IHlen]].
    cbn [base64Encode]. split.
    + rewrite !filter_cons_True;
        [by rewrite IHfilter | | | | ];
        by first [apply (base64Char_cases _ H4) | apply (base64Char_cases _ H3)
                 | apply (base64Char_cases _ H2) | apply (base64Char_cases _ H1)].
    + exists (S k). cbn [length]. lia.
Qed.

(** Without its padding the encoding reads back, sextet by sextet, as the
    bytes it was made from. *)
Lemma base64Encode_decodes bytes :
  Forall (λ c, c < 256) bytes →
  (N.of_nat (length (stripPadding (base64Encode bytes))) mod 4 =? 1) = false ∧
  ∃ sextets,
    mapM base64Value (stripPadding (base64Encode bytes)) = Some sextets ∧
    sextetsToBytes sextets = bytes.
Proof.
  induction bytes as [| a | a b | a b c rest IH] using list_ind3; intros Hbytes.
  - split; [done | by exists []].
  - apply Forall_cons in Hbytes as [Ha _].
    destruct (sextets_below a 0 0 Ha) as (H1 & _ & _ & _ & H2 & _); [lia | lia |].
    destruct (base64Char_cases _ H1) as (Hv1 & _ & Hp1).
    destruct (base64Char_cases _ H2) as (Hv2 & _ & Hp2).
    cbn [base64Encode]. rewrite !stripPadding_cons by done. cbn [stripPadding N.eqb Pos.eqb].
    split; [done |]. eexists. split.
    + apply mapM_Some. repeat constructor; eassumption.
    + cbn [sextetsToBytes]. f_equal. div_lia.
  - apply Forall_cons in Hbytes as [Ha Hbytes]. apply Forall_cons in Hbytes as [Hb _].
    destruct (sextets_below a b 0 Ha Hb) as (H1 & H2 & _ & _ & _ & H3); [lia |].
    destruct (base64Char_cases _ H1) as (Hv1 & _ & Hp1).
    destruct (base64Char_cases _ H2) as (Hv2 & _ & Hp2).
    destruct (base64Char_cases _ H3) as (Hv3 & _ & Hp3).
    cbn [base64Encode]. rewrite !stripPadding_cons by done. cbn [stripPadding N.eqb Pos.eqb].
    split; [done |]. eexists. split.
    + apply mapM_Some. repeat constructor; eassumption.
    + cbn [sextetsToBytes]. f_equal; [div_lia |]. f_equal. div_lia.
  - apply Forall_cons in Hbytes as [Ha Hbytes]. apply Forall_cons in Hbytes as [Hb Hbytes].
    apply Forall_cons in Hbytes as [Hc Hbytes].
    destruct (sextets_below a b c Ha Hb Hc) as (H1 & H2 & H3 & H4 & _).
    destruct (base64Char_cases _ H1) as (Hv1 & _ & Hp1).
    destruct (base64Char_cases _ H2) as (Hv2 & _ & Hp2).
    destruct (base64Char_cases _ H3) as (Hv3 & _ & Hp3).
    destruct (base64Char_cases _ H4) as (Hv4 & _ & Hp4).
    destruct (IH Hbytes) as (IHlen & sextets & IHmap & IHbytes).
    cbn [base64Encode]. rewrite !stripPadding_cons by done. split.
    + cbn [length]. apply N.eqb_neq. apply N.eqb_neq in IHlen. clear - IHlen. div_lia.
    + eexists. split.
      * apply mapM_Some. repeat (apply Forall2_cons; split; [eassumption |]).
        by apply mapM_Some.
      * cbn [sextetsToBytes]. rewrite IHbytes.
        f_equal; [div_lia |]. f_equal; [div_lia |]. f_equal. div_lia.
Qed.

Lemma base64_roundtrip bytes :
  Forall (λ c, c < 256) bytes → atob (base64Encode bytes) = Some bytes.
Proof.
  intros Hbytes.
  destruct (base64Encode_shape bytes Hbytes) as [Hfilter [k Hlen]].
  destruct (base64Encode_decodes bytes Hbytes) as (Hmod & sextets & Hmap & Hdecode).
  unfold atob. cbv zeta. rewrite Hfilter.
  assert ((N.of_nat (length (base64Encode bytes)) mod 4 =? 0) = true) as ->.
  { apply N.eqb_eq. rewrite Hlen. div_lia. }
  by rewrite Hmod, Hmap, Hdecode.
Qed.

Lemma btoa_Some url :
  btoa url = (if forallb (λ c, c <? 256) url then Some (base64Encode url) else None) ∧
  (forallb (λ c, c <? 256) url = true ↔ Forall (λ c, c < 256) url).
Proof.
  split; [done |]. rewrite forallb_forall, Forall_forall.
  split; intros Hall c Hc.
  - apply N.ltb_lt, Hall. by apply list_elem_of_In.
  - apply N.ltb_lt, Hall. by apply list_elem_of_In.
Qed.
(** X2: whenever [encodeUrl] accepts a URL, the hex form decodes back to
    the URL, except for the empty URL, whose (empty) hex form makes
    [decodeUrl] throw. *)
Theorem hex_form_decodes_unless_empty (url : list N) (e : Encoded) :
  encodeUrl url = Some e →
  decodeUrl (hex e) "hex" = match url with [] => None | _ => Some url end.
Proof.
  unfold encodeUrl. destruct (btoa_Some url) as [-> Hall].
  destruct (forallb (λ c, c <? 256) url) eqn:Hbytes; [| done].
  intros [= <-]. cbn [hex]. unfold decodeUrl. cbn.
  apply hex_roundtrip. apply Forall_forall, Hall. done.
Qed.

(** X3: [encodeUrl] throws exactly when the URL has a code unit above 255;
    otherwise the base64 form decodes back to the URL. *)
Theorem base64_form_decodes (url : list N) :
  (encodeUrl url = None ↔ ∃ c, c ∈ url ∧ 255 < c) ∧
  (∀ e, encodeUrl url = Some e → decodeUrl (base64 e) "base64" = Some url).
Proof.
  unfold encodeUrl. destruct (btoa_Some url) as [-> Hall].
  destruct (forallb (λ c, c <? 256) url) eqn:Hbytes.
  - apply proj1 in Hall. specialize (Hall eq_refl). split.
    + split; [done |]. intros (c & Hc & Hbig).
      rewrite Forall_forall in Hall. apply Hall in Hc. lia.
    + intros e [= <-]. cbn [base64]. unfold decodeUrl. cbn.
      by apply base64_roundtrip.
  - split; [| done]. split; [intros _ | done].
    assert (¬ Forall (λ c, c < 256) url) as Hnot.
    { intros HF. by apply Hall in HF. }
    apply not_Forall_Exists in Hnot; [| intros c; apply _].
    apply Exists_exists in Hnot. destruct Hnot as (c & Hc & Hbig).
    unfold compose in Hbig. exists c. split; [done | lia].
Qed.
End CodecFacts.

Lemma shifted_decodes_unless_shifted_onto_line_terminator_witness :
  (∀ c, c ∈ [104; 116; 116; 112]%N → (c < 65536)%N) ∧
  Codec.decodeUrl (Codec.encodeShifted [104; 116; 116; 112]%N) "shifted"
    = Some [104; 116; 116; 112]%N.
Proof.
  assert (∀ c, c ∈ [104; 116; 116; 112]%N → (c < 65536)%N) as Hunits.
  { intros c Hc. repeat (apply elem_of_cons in Hc as [->|Hc]; [reflexivity |]).
    by apply elem_of_nil in Hc. }
  split; [exact Hunits |].
  apply (proj2 (shifted_decodes_unless_shifted_onto_line_terminator _ Hunits)).
  intros c Hc. repeat (apply elem_of_cons in Hc as [->|Hc]; [reflexivity |]).
  by apply elem_of_nil in Hc.
Defined.

Lemma hex_form_decodes_unless_empty_witness :
  ∃ e, Codec.encodeUrl [104; 105]%N = Some e ∧
       Codec.decodeUrl (Codec.hex e) "hex" = Some [104; 105]%N.
Proof.
  eexists. split; [reflexivity |].
  exact (hex_form_decodes_unless_empty [104; 105]%N _ eq_refl).
Defined.

Lemma base64_form_decodes_witness :
  ∃ e, Codec.encodeUrl [104; 105]%N = Some e ∧
       Codec.decodeUrl (Codec.base64 e) "base64" = Some [104; 105]%N.
Proof.
  eexists. split; [reflexivity |].
  exact (proj2 (base64_form_decodes [104; 105]%N) _ eq_refl).
Defined.

(** ** The rule manager on any engine *)

Lemma dict_get_elem {V} (d : list (string * V)) k v : Dict.get k d = Some v → (k, v) ∈ d.
Proof.
  induction d as [|[k' v'] t IH]; simpl; [done |].
  destruct (decide (k = k')) as [->|Hne].
  - intros [= ->]. apply list_elem_of_here.
  - intros H. apply list_elem_of_further, IH, H.
Qed.

Lemma world_eq (w1 w2 : World) :
  dynamicRules w1 = dynamicRules w2 → charset_settings w1 = charset_settings w2 →
  active_rules w1 = active_rules w2 → ruleIdCounter w1 = ruleIdCounter w2 →
  activeRules w1 = activeRules w2 → usedRuleIds w1 = usedRuleIds w2 →
  w1 = w2.
Proof. destruct w1, w2. cbn. by intros -> -> -> -> -> ->. Qed.

Section ManagerFacts.
Variable engineAccepts : list Rule → Rule → bool.

Lemma removeCharsetRule_keeps_settings w hostname :
  charset_settings (removeCharsetRule engineAccepts w hostname).1 = charset_settings w.
Proof.
  unfold removeCharsetRule. destruct (truthyId _); [| done].
  destruct (Dict.get hostname (activeRules w)); [| done].
  by rewrite updateDynamicRules_remove.
Qed.

Lemma createCharsetRule_keeps_settings w hostname charset :
  charset_settings (createCharsetRule engineAccepts w hostname charset).1 = charset_settings w.
Proof.
  apply (createCharsetRule_preserves engineAccepts
           (λ w', charset_settings w' = charset_settings w)); try done.
  intros w0 <-. apply removeCharsetRule_keeps_settings.
Qed.

(** A property that [initialize] keeps, rather than establishes. *)
Lemma runOps_keeps (P : World → Prop) ops w :
  (∀ w0, P w0 → P (initialize engineAccepts w0)) →
  (∀ w0 hostname, P w0 → P (removeCharsetRule engineAccepts w0 hostname).1) →
  (∀ w0 hostname charset, P w0 → P (createCharsetRule engineAccepts w0 hostname charset).1) →
  P w → P (runOps engineAccepts ops w).
Proof.
  intros Hinit Hremove Hcreate. revert w.
  induction ops as [|op ops IH]; intros w HP; [done |].
  unfold runOps. cbn [foldl]. apply IH.
  destruct op as [|hostname charset|hostname|]; cbn [stepOp].
  - by apply Hinit.
  - by apply Hcreate.
  - by apply Hremove.
  - apply restoreSavedRules_preserves; [by apply Hinit | done].
Qed.

(** X4: the rule manager only reads the stored hostname-to-charset map: no
    sequence of [initialize], [createCharsetRule], [removeCharsetRule] and
    [restoreSavedRules] changes it. *)
Theorem manager_never_writes_intent (ops : list ManagerOp) (w : World) :
  charset_settings (runOps engineAccepts ops w) = charset_settings w.
Proof.
  apply (runOps_keeps (λ w', charset_settings w' = charset_settings w)).
  - intros w0 <-. by rewrite initialize_eq.
  - intros w0 hostname <-. apply removeCharsetRule_keeps_settings.
  - intros w0 hostname charset <-. apply createCharsetRule_keeps_settings.
  - done.
Qed.



(** Once the check against [getDynamicRules] has found no rule with the
    new identifier, the engine cannot answer the installation with the
    [unique ID] error: the retry in the [catch] block of [createCharsetRule]
    stays unused when nothing else changes the engine in between. *)
Lemma unique_id_error_unreachable (rules : list Rule) (ruleId : nat)
    (hostname charset : string) :
  List.find (λ r, Nat.eqb (rule_id r) ruleId) rules = None →
  updateDynamicRules engineAccepts [] [charsetRule ruleId hostname charset] rules
    ≠ inl UniqueIdError.
Proof.
  intros Hcheck%find_conflict_None. rewrite updateDynamicRules_add.
  cbn [charsetRule rule_id]. rewrite bool_decide_eq_false_2 by done.
  by destruct (engineAccepts rules _).
Qed.

Lemma counter_positive_create w hostname charset :
  1 ≤ ruleIdCounter w →
  1 ≤ ruleIdCounter (createCharsetRule engineAccepts w hostname charset).1.
Proof.
  apply (createCharsetRule_preserves engineAccepts (λ w', 1 ≤ ruleIdCounter w')).
  - intros w0. by rewrite removeCharsetRule_counter.
  - intros w0 _ _ _. cbn. lia.
  - intros w0 _ _ _. cbn. lia.
  - intros w0 _ _ _ _. cbn. lia.
Qed.

Lemma createCharsetRule_id_ge w hostname charset ruleId :
  (createCharsetRule engineAccepts w hostname charset).2 = Some ruleId →
  ruleIdCounter w ≤ ruleId.
Proof.
  intros Hid. destruct (createCharsetRule_run engineAccepts w hostname charset) as [n Hrun].
  rewrite Hid in Hrun. rewrite createCharsetRuleFuel_after_remove in Hrun.
  apply createCharsetRuleFuel_settled_result in Hrun; [| apply removeCharsetRule_settles].
  destruct Hrun as (ruleId' & Hle & _ & _ & _ & <- & _).
  rewrite removeCharsetRule_counter in Hle. lia.
Qed.

(** X6: a manager made by [new RuleManager()] never issues the identifier 0,
    whatever the engine holds and whatever was done since: every identifier
    [createCharsetRule] returns is truthy, so the [if (ruleId)] tests of its
    callers and of [removeCharsetRule] tell exactly whether a rule exists. *)
Theorem issued_ids_are_truthy (rules : list Rule)
    (settings : option (list (string * string))) (saved : option (list (string * nat)))
    (ops : list ManagerOp) (hostname charset : string) :
  let w := runOps engineAccepts ops (newRuleManager rules settings saved) in
  ∀ ruleId,
    (createCharsetRule engineAccepts w hostname charset).2 = Some ruleId →
    1 ≤ ruleId ∧
    truthyId (createCharsetRule engineAccepts w hostname charset).2 = true.
Proof.
  cbv zeta. intros ruleId Hid.
  assert (1 ≤ ruleIdCounter (runOps engineAccepts ops (newRuleManager rules settings saved)))
    as Hpos.
  { apply (runOps_keeps (λ w', 1 ≤ ruleIdCounter w')).
    - intros w0 _. by rewrite initialize_eq.
    - intros w0 h. by rewrite removeCharsetRule_counter.
    - intros w0 h c. apply counter_positive_create.
    - done. }
  pose proof (createCharsetRule_id_ge _ _ _ _ Hid) as Hge.
  split; [lia |]. rewrite Hid. cbn. destruct ruleId; [lia | done].
Qed.

(** X7: removing twice is removing once: the second [removeCharsetRule] for a
    hostname returns [false] and leaves the state of the first. *)
Theorem removeCharsetRule_idempotent (w : World) (hostname : string) :
  removeCharsetRule engineAccepts (removeCharsetRule engineAccepts w hostname).1 hostname
    = ((removeCharsetRule engineAccepts w hostname).1, false).
Proof. apply removeCharsetRule_settled, removeCharsetRule_settles. Qed.

(** X8: after a [createCharsetRule] that returns an identifier and after a
    [removeCharsetRule] that returns [true], [getActiveRules] reads from the
    storage exactly the entries of the in-memory map; [initialize] empties the
    map but leaves the stored copy as it was. *)
Theorem stored_snapshot_follows_map (w : World) (hostname charset : string) :
  (∀ ruleId, (createCharsetRule engineAccepts w hostname charset).2 = Some ruleId →
     getActiveRules (createCharsetRule engineAccepts w hostname charset).1
       = activeRules (createCharsetRule engineAccepts w hostname charset).1) ∧
  ((removeCharsetRule engineAccepts w hostname).2 = true →
     getActiveRules (removeCharsetRule engineAccepts w hostname).1
       = activeRules (removeCharsetRule engineAccepts w hostname).1) ∧
  (getActiveRules (initialize engineAccepts w) = getActiveRules w ∧
   activeRules (initialize engineAccepts w) = []).
Proof.
  split_and!.
  - intros ruleId Hid.
    destruct (createCharsetRule_run engineAccepts w hostname charset) as [n Hrun].
    rewrite Hid in Hrun. rewrite createCharsetRuleFuel_after_remove in Hrun.
    apply createCharsetRuleFuel_settled_result in Hrun; [| apply removeCharsetRule_settles].
    destruct Hrun as (ruleId' & _ & _ & _ & _ & _ & _ & _ & _ & Hsaved & _).
    unfold getActiveRules. by rewrite Hsaved.
  - unfold removeCharsetRule. destruct (truthyId _); [| done].
    destruct (Dict.get hostname (activeRules w)); [| done].
    by rewrite updateDynamicRules_remove.
  - by rewrite initialize_eq.
  - by rewrite initialize_eq.
Qed.

End ManagerFacts.

(** ** The agreement of manager and engine, through the handlers *)

Lemma filter_filter_elem {A} (P Q : A → Prop) `{∀ x, Decision (P x)} `{∀ x, Decision (Q x)}
    (l : list A) :
  (∀ x, x ∈ l → P x → Q x) → filter P (filter Q l) = filter P l.
Proof.
  induction l as [|a l IH]; intros Himp; [done |].
  assert (∀ x, x ∈ l → P x → Q x) as Himp'.
  { intros x Hx. by apply Himp, list_elem_of_further. }
  destruct (decide (Q a)) as [HQ|HQ].
  - rewrite (filter_cons_True Q) by done. rewrite !filter_cons. by rewrite IH.
  - rewrite (filter_cons_False Q) by done. rewrite IH by done.
    rewrite filter_cons_False; [done |]. intros HP. apply HQ.
    by apply Himp; [apply list_elem_of_here |].
Qed.

Lemma dict_delete_set_absent {V} (d : list (string * V)) k v :
  Dict.get k d = None → Dict.delete k (Dict.set k v d) = d.
Proof.
  induction d as [|[k' v'] t IH]; simpl.
  - by rewrite decide_True.
  - destruct (decide (k = k')) as [->|Hne]; [done |]. intros Hnone.
    simpl. rewrite decide_False by done. by rewrite IH.
Qed.

Lemma dict_set_set {V} (d : list (string * V)) k v : Dict.set k v (Dict.set k v d) = Dict.set k v d.
Proof.
  induction d as [|[k' v'] t IH]; simpl.
  - by rewrite decide_True.
  - destruct (decide (k = k')) as [->|Hne]; simpl.
    + by rewrite decide_True.
    + rewrite decide_False by done. by rewrite IH.
Qed.

Lemma dict_delete_delete {V} (d : list (string * V)) k : Dict.delete k (Dict.delete k d) = Dict.delete k d.
Proof.
  induction d as [|[k' v'] t IH]; simpl; [done |].
  destruct (decide (k = k')) as [->|Hne]; [done |].
  simpl. rewrite decide_False by done. by rewrite IH.
Qed.

Lemma Inv_set_settings w settings : Inv w → Inv (set_charset_settings w settings).
Proof. intros [? ? ? ? ? ?]. by split. Qed.

Lemma Inv_set_snapshot w saved : Inv w → Inv (set_active_rules w saved).
Proof. intros [? ? ? ? ? ?]. by split. Qed.

Section HandlerInvFacts.
Variable engineAccepts : list Rule → Rule → bool.

Lemma Inv_restore w : Inv (restoreSavedRules engineAccepts w).1.
Proof.
  apply restoreSavedRules_preserves; [apply Inv_initialize |].
  intros w0 hostname charset. apply Inv_create.
Qed.

Lemma Inv_handleEvent w ev : Inv w → Inv (handleEvent engineAccepts w ev).
Proof.
  intros HInv. destruct ev as [reason| |menuId tabHostname|message|complete tabHostname];
    cbn [handleEvent].
  - unfold onInstalled. destruct reason; [apply Inv_initialize | apply Inv_restore | apply Inv_initialize].
  - apply Inv_restore.
  - unfold handleMenuClick. destruct tabHostname as [hostname|]; [| done].
    destruct (String.prefix "charset-" menuId && negb (bool_decide (menuId = "charset-reset"))).
    + destruct (truthy _); [| done]. cbn [fst]. by apply Inv_set_settings, Inv_create.
    + case_bool_decide; [| done]. cbn [fst]. by apply Inv_set_settings, Inv_remove.
  - destruct message as [hostname charset|hostname|hostname|name]; cbn [onMessage fst]; try done.
    + by apply Inv_set_settings, Inv_create.
    + by apply Inv_set_settings, Inv_remove.
  - unfold onTabUpdated. destruct complete; [| done].
    destruct tabHostname as [hostname|]; [| done].
    destruct (truthy _ && negb _); [| done]. by apply Inv_create.
Qed.

Lemma Inv_runEvents evs w : Inv w → Inv (runEvents engineAccepts evs w).
Proof.
  revert w. induction evs as [|ev evs IH]; intros w HInv; [done |].
  unfold runEvents. cbn [foldl]. by apply IH, Inv_handleEvent.
Qed.

(** The two outcomes of [createCharsetRule] on a state in agreement. *)
Lemma Inv_create_cases w hostname charset :
  Inv w →
  let w1 := (removeCharsetRule engineAccepts w hostname).1 in
  createCharsetRule engineAccepts w hostname charset
    = (installed w1 (ruleIdCounter w) hostname charset, Some (ruleIdCounter w))
  ∨ (createCharsetRule engineAccepts w hostname charset
       = ((generateUniqueRuleId w1).1, None) ∧
     engineAccepts (dynamicRules w1) (charsetRule (ruleIdCounter w) hostname charset) = false).
Proof.
  intros HInv. cbv zeta.
  destruct (engineAccepts (dynamicRules (removeCharsetRule engineAccepts w hostname).1)
              (charsetRule (ruleIdCounter w) hostname charset)) eqn:Haccept.
  - left. by apply Inv_create_eq.
  - right. split; [| done].
    pose proof (Inv_remove engineAccepts w hostname HInv) as HInv1.
    pose proof (removeCharsetRule_settles engineAccepts w hostname) as Hsettled.
    pose proof (removeCharsetRule_counter engineAccepts w hostname) as Hcnt.
    unfold createCharsetRule, createFuel. rewrite createCharsetRuleFuel_after_remove.
    rewrite createCharsetRuleFuel_settled_step by done.
    rewrite generateUniqueRuleId_fresh by apply (inv_used_lt _ HInv1).
    cbv zeta. cbn [fst snd]. rewrite Hcnt.
    rewrite bool_decide_eq_false_2.
    + by rewrite Haccept.
    + rewrite <- Hcnt. by apply Inv_counter_free.
Qed.

(** Under agreement [removeCharsetRule] removes the rules of its hostname and
    no other. *)
Lemma Inv_remove_rules w hostname r :
  Inv w →
  r ∈ dynamicRules (removeCharsetRule engineAccepts w hostname).1
  ↔ r ∈ dynamicRules w ∧ ¬ ruleFor hostname r.
Proof.
  intros HInv. split.
  - intros Hr. split; [by eapply removeCharsetRule_rules |].
    pose proof (Inv_remove engineAccepts w hostname HInv) as HInv1.
    pose proof (Inv_settled _ _ HInv1 (removeCharsetRule_settles engineAccepts w hostname))
      as Hnone.
    destruct (inv_tracked _ HInv1 r Hr) as (h & c & Heq & Hh).
    rewrite Heq. rewrite ruleFor_charsetRule. intros ->. congruence.
  - intros [Hr Hnot].
    destruct (truthyId (Dict.get hostname (activeRules w))) eqn:Htruthy;
      [| by rewrite removeCharsetRule_absent].
    destruct (Dict.get hostname (activeRules w)) as [ruleId|] eqn:Hget; [| done].
    assert (ruleId ≠ 0) as Hne by (intros ->; done).
    rewrite (removeCharsetRule_present engineAccepts w hostname ruleId Hget Hne).
    cbn [fst dynamicRules]. apply remove_one_elem. split; [| done].
    intros Hid. apply Hnot.
    destruct (inv_tracked _ HInv r Hr) as (h & c & Heq & Hh).
    rewrite Hid in Hh. rewrite (Inv_active_inj w h hostname ruleId HInv Hh Hget) in Heq.
    rewrite Heq. by apply ruleFor_charsetRule.
Qed.

Lemma Inv_remove_rulesFor w hostname other :
  Inv w → other ≠ hostname →
  rulesFor other (removeCharsetRule engineAccepts w hostname).1 = rulesFor other w.
Proof.
  intros HInv Hother. unfold rulesFor.
  destruct (truthyId (Dict.get hostname (activeRules w))) eqn:Htruthy;
    [| by rewrite removeCharsetRule_absent].
  destruct (Dict.get hostname (activeRules w)) as [ruleId|] eqn:Hget; [| done].
  assert (ruleId ≠ 0) as Hne by (intros ->; done).
  rewrite (removeCharsetRule_present engineAccepts w hostname ruleId Hget Hne).
  cbn [fst dynamicRules]. apply filter_filter_elem.
  intros r Hr Hfor. rewrite list_elem_of_singleton. intros Hid.
  destruct (inv_tracked _ HInv r Hr) as (h & c & Heq & Hh).
  rewrite Hid in Hh. rewrite (Inv_active_inj w h hostname ruleId HInv Hh Hget) in Heq.
  rewrite Heq in Hfor. apply ruleFor_charsetRule in Hfor. congruence.
Qed.

Lemma Inv_remove_rulesFor_same w hostname :
  Inv w → rulesFor hostname (removeCharsetRule engineAccepts w hostname).1 = [].
Proof.
  intros HInv. unfold rulesFor. apply filter_none. intros r Hr Hfor.
  apply (Inv_remove_rules w hostname r HInv) in Hr. tauto.
Qed.

Lemma removeCharsetRule_get_other w hostname other :
  other ≠ hostname →
  Dict.get other (activeRules (removeCharsetRule engineAccepts w hostname).1)
    = Dict.get other (activeRules w).
Proof.
  intros Hother. unfold removeCharsetRule. destruct (truthyId _); [| done].
  destruct (Dict.get hostname (activeRules w)); [| done].
  rewrite updateDynamicRules_remove. cbn. apply dict_get_delete_ne. congruence.
Qed.

End HandlerInvFacts.

(** ** One active rule per hostname, through the handlers *)

Lemma entriesFor_None w hostname :
  Dict.get hostname (activeRules w) = None → entriesFor hostname w = [].
Proof.
  intros Hnone. unfold entriesFor. apply filter_none.
  intros [k v] Hin Hk. cbn in Hk. subst k.
  apply dict_get_None in Hnone. apply Hnone.
  by apply (list_elem_of_fmap_2 fst) in Hin.
Qed.

Section OneRuleTheorem.
Variable engineAccepts : list Rule → Rule → bool.

(** From a state in agreement, a refusal of the engine ends the method after
    the removal of the old rule and the allocation. *)
Lemma Inv_create_refused w hostname charset :
  Inv w →
  engineAccepts (dynamicRules (removeCharsetRule engineAccepts w hostname).1)
    (charsetRule (ruleIdCounter w) hostname charset) = false →
  createCharsetRule engineAccepts w hostname charset =
    (set_manager (removeCharsetRule engineAccepts w hostname).1 (S (ruleIdCounter w))
       (activeRules (removeCharsetRule engineAccepts w hostname).1)
       ({[ruleIdCounter w]} ∪ usedRuleIds (removeCharsetRule engineAccepts w hostname).1),
     None).
Proof.
  intros HInv Haccept.
  pose proof (Inv_remove engineAccepts w hostname HInv) as HInv1.
  pose proof (removeCharsetRule_settles engineAccepts w hostname) as Hsettled.
  pose proof (removeCharsetRule_counter engineAccepts w hostname) as Hcnt.
  unfold createCharsetRule, createFuel. rewrite createCharsetRuleFuel_after_remove.
  rewrite createCharsetRuleFuel_settled_step by done.
  rewrite generateUniqueRuleId_fresh by apply (inv_used_lt _ HInv1).
  cbv zeta. cbn [fst snd]. rewrite Hcnt.
  rewrite bool_decide_eq_false_2.
  - by rewrite Haccept.
  - rewrite <- Hcnt. by apply Inv_counter_free.
Qed.

(** C1, as the code has it: in every state reached from [initialize] through
    any sequence of manager operations and then of listener events, the
    engine holds at most one rule for a hostname and the map at most one
    entry.  When the map there holds [id1] for the hostname (a rule with some
    charset [c1] being installed under it), [createCharsetRule] first removes
    the old rule from the engine, the in-use set and the map, so that [id1] is
    neither in use nor installed afterwards.  When the engine takes the new
    rule, the only rule for the hostname is then the one with the new charset,
    under a different identifier, and the map has that one entry; when the
    engine refuses it, the call returns [null] and no rule and no entry for
    the hostname is left. *)
Theorem replacing_rule_keeps_one_active (w0 : World) (ops : list ManagerOp)
    (evs : list Event) (hostname : string) :
  let w := runEvents engineAccepts evs
             (runOps engineAccepts ops (initialize engineAccepts w0)) in
  length (rulesFor hostname w) ≤ 1 ∧
  length (entriesFor hostname w) ≤ 1 ∧
  ∀ id1 c1 c2,
    Dict.get hostname (activeRules w) = Some id1 →
    charsetRule id1 hostname c1 ∈ dynamicRules w →
    let w1 := (removeCharsetRule engineAccepts w hostname).1 in
    let w' := (createCharsetRule engineAccepts w hostname c2).1 in
    (removeCharsetRule engineAccepts w hostname).2 = true ∧
    (id1 ∉ getAllRuleIds w1) ∧ (id1 ∉ usedRuleIds w1) ∧
    Dict.get hostname (activeRules w1) = None ∧
    (id1 ∉ usedRuleIds w') ∧
    (id1 ∉ getAllRuleIds w') ∧
    length (rulesFor hostname w') ≤ 1 ∧
    length (entriesFor hostname w') ≤ 1 ∧
    (engineAccepts (dynamicRules w1) (charsetRule (ruleIdCounter w) hostname c2) = true →
     ∃ id2,
       (createCharsetRule engineAccepts w hostname c2).2 = Some id2 ∧
       id2 ≠ id1 ∧
       w' = installed w1 id2 hostname c2 ∧
       rulesFor hostname w' = [charsetRule id2 hostname c2] ∧
       entriesFor hostname w' = [(hostname, id2)] ∧
       Dict.get hostname (activeRules w') = Some id2 ∧
       id2 ∈ usedRuleIds w') ∧
    (engineAccepts (dynamicRules w1) (charsetRule (ruleIdCounter w) hostname c2) = false →
     (createCharsetRule engineAccepts w hostname c2).2 = None ∧
     rulesFor hostname w' = [] ∧
     entriesFor hostname w' = [] ∧
     Dict.get hostname (activeRules w') = None).
Proof.
  cbv zeta.
  pose proof (Inv_runEvents engineAccepts evs _
                (Inv_runOps engineAccepts ops _ (Inv_initialize engineAccepts w0))) as HInv.
  revert HInv.
  generalize (runEvents engineAccepts evs
                (runOps engineAccepts ops (initialize engineAccepts w0))).
  intros w HInv. split_and!; [by apply Inv_rulesFor_le | by apply Inv_entriesFor_le |].
  intros id1 c1 c2 Hget Hold.
  destruct (inv_active w HInv hostname id1 Hget) as (Hpos & Hused & _).
  pose proof (inv_used_lt w HInv id1 Hused) as Hlt.
  assert (id1 ≠ 0) as Hne by lia.
  pose proof (removeCharsetRule_present engineAccepts w hostname id1 Hget Hne) as Hremove.
  pose proof (Inv_remove_rulesFor_same engineAccepts w hostname HInv) as Hnorule.
  assert (id1 ∉ getAllRuleIds (removeCharsetRule engineAccepts w hostname).1) as Hgone.
  { rewrite Hremove. apply remove_one_gone. }
  assert (id1 ∉ usedRuleIds (removeCharsetRule engineAccepts w hostname).1) as Hnotused1.
  { rewrite Hremove. cbn. rewrite elem_of_difference, elem_of_singleton. tauto. }
  assert (Dict.get hostname (activeRules (removeCharsetRule engineAccepts w hostname).1) = None)
    as Hnone.
  { rewrite Hremove. apply dict_get_delete_eq. }
  assert ((removeCharsetRule engineAccepts w hostname).2 = true) as Hret.
  { by rewrite Hremove. }
  pose proof (Inv_create engineAccepts w hostname c2 HInv) as HInv'.
  clear Hremove.
  destruct (engineAccepts (dynamicRules (removeCharsetRule engineAccepts w hostname).1)
              (charsetRule (ruleIdCounter w) hostname c2)) eqn:Haccept.
  - destruct (Inv_create_eq engineAccepts w hostname c2 HInv Haccept) as [Hcreate _].
    rewrite Hcreate in HInv' |- *. cbn [fst snd] in HInv' |- *.
    assert (Dict.get hostname
              (activeRules (installed (removeCharsetRule engineAccepts w hostname).1
                              (ruleIdCounter w) hostname c2)) = Some (ruleIdCounter w)) as Hget'.
    { cbn. apply dict_get_set_eq. }
    split_and!; [done | done | done | done | | | by apply Inv_rulesFor_le
                 | by apply Inv_entriesFor_le | | done].
    + cbn. rewrite elem_of_union, elem_of_singleton. intros [->|Hin]; [lia | done].
    + unfold getAllRuleIds in *. cbn. rewrite map_app, elem_of_app. cbn.
      rewrite list_elem_of_singleton. intros [Hin| ->]; [done | lia].
    + intros _. exists (ruleIdCounter w). split_and!; [done | lia | done | | | done |].
      * apply length_le_1_elem; [by apply Inv_rulesFor_le |].
        apply list_elem_of_filter. split; [by apply ruleFor_charsetRule |].
        cbn. apply elem_of_app. right. by apply list_elem_of_singleton.
      * by apply dict_filter_key; [apply (inv_keys _ HInv') |].
      * cbn. apply elem_of_union. left. by apply elem_of_singleton.
  - rewrite (Inv_create_refused w hostname c2 HInv Haccept) in HInv' |- *.
    cbn [fst snd] in HInv' |- *.
    split_and!; [done | done | done | done | | done | by apply Inv_rulesFor_le
                 | by apply Inv_entriesFor_le | done |].
    + cbn. rewrite elem_of_union, elem_of_singleton. intros [->|Hin]; [lia | done].
    + intros _. split_and!; [done | done | by apply entriesFor_None | done].
Qed.

End OneRuleTheorem.

Lemma replacing_rule_keeps_one_active_witness :
  let w := runEvents acceptAll [EvMessage (updateCharset "a.com" "GBK")]
             (runOps acceptAll [OpCreate "b.com" "Big5"]
                (initialize acceptAll (newRuleManager (staleRules 7 2) None None))) in
  Dict.get "a.com" (activeRules w) = Some 2 ∧
  charsetRule 2 "a.com" "GBK" ∈ dynamicRules w ∧
  rulesFor "a.com" (createCharsetRule acceptAll w "a.com" "UTF-8").1
    = [charsetRule 3 "a.com" "UTF-8"].
Proof.
  cbv zeta.
  assert (charsetRule 2 "a.com" "GBK"
            ∈ dynamicRules
                (runEvents acceptAll [EvMessage (updateCharset "a.com" "GBK")]
                   (runOps acceptAll [OpCreate "b.com" "Big5"]
                      (initialize acceptAll (newRuleManager (staleRules 7 2) None None)))))
    as Hold.
  { apply (bool_decide_unpack _). vm_compute. exact I. }
  split; [reflexivity |]. split; [exact Hold |].
  destruct (replacing_rule_keeps_one_active acceptAll
              (newRuleManager (staleRules 7 2) None None) [OpCreate "b.com" "Big5"]
              [EvMessage (updateCharset "a.com" "GBK")] "a.com")
    as (_ & _ & Hreplace).
  destruct (Hreplace 2 "GBK" "UTF-8" eq_refl Hold)
    as (_ & _ & _ & _ & _ & _ & _ & _ & Haccepted & _).
  destruct (Haccepted eq_refl) as (id2 & Hid & _ & _ & Hrules & _).
  injection Hid as <-. exact Hrules.
Defined.

(** C1 as stated fails, in two ways.  A worker started anew over an engine
    that still holds the rule of an earlier worker for [a.com] has an empty
    map: a click on the Big5 entry removes nothing and leaves two rules for
    the hostname.  And after [initialize], when the engine refuses the new
    rule (here a header value with a line feed in it), the old rule is gone
    already and no rule for the hostname is left. *)
Lemma replacing_rule_counterexample :
  (let w := newRuleManager [charsetRule 1 "a.com" "GBK"]
              (Some [("a.com", "GBK")]) (Some [("a.com", 1)]) in
   rulesFor "a.com" (handleMenuClick acceptAll w "charset-Big5" (Some "a.com")).1
     = [charsetRule 1 "a.com" "GBK"; charsetRule 2 "a.com" "Big5"] ∧
   ¬ length (rulesFor "a.com"
               (handleMenuClick acceptAll w "charset-Big5" (Some "a.com")).1) ≤ 1) ∧
  (let w := runEvents acceptHeaderValue [EvMessage (updateCharset "a.com" "GBK")]
              (initialize acceptHeaderValue (newRuleManager [] None None)) in
   Dict.get "a.com" (activeRules w) = Some 1 ∧
   rulesFor "a.com" w = [charsetRule 1 "a.com" "GBK"] ∧
   (createCharsetRule acceptHeaderValue w "a.com" lineBreakCharset).2 = None ∧
   rulesFor "a.com" (createCharsetRule acceptHeaderValue w "a.com" lineBreakCharset).1 = [] ∧
   ¬ length (rulesFor "a.com"
               (createCharsetRule acceptHeaderValue w "a.com" lineBreakCharset).1) = 1).
Proof.
  cbv zeta.
  assert (rulesFor "a.com"
            (handleMenuClick acceptAll
               (newRuleManager [charsetRule 1 "a.com" "GBK"]
                  (Some [("a.com", "GBK")]) (Some [("a.com", 1)]))
               "charset-Big5" (Some "a.com")).1
          = [charsetRule 1 "a.com" "GBK"; charsetRule 2 "a.com" "Big5"]) as Htwo
    by (vm_compute; reflexivity).
  assert (rulesFor "a.com"
            (createCharsetRule acceptHeaderValue
               (runEvents acceptHeaderValue [EvMessage (updateCharset "a.com" "GBK")]
                  (initialize acceptHeaderValue (newRuleManager [] None None)))
               "a.com" lineBreakCharset).1 = []) as Hnone
    by (vm_compute; reflexivity).
  split.
  - split; [exact Htwo |]. rewrite Htwo. cbn. lia.
  - split_and!; [reflexivity | vm_compute; reflexivity | reflexivity | exact Hnone |].
    rewrite Hnone. cbn. lia.
Qed.

Section AgreementTheorems.
Variable engineAccepts : list Rule → Rule → bool.

(** X9: after [initialize] and any sequence of events (installs, startups,
    menu clicks, messages, tab updates), the in-memory map and the engine
    describe the same rules: the map holds [id] for a hostname exactly when the
    engine holds a rule with that id for that hostname, every installed rule
    is of that kind, and every identifier in use is below the counter. *)
Theorem map_and_engine_agree (w0 : World) (evs : list Event) :
  let w := runEvents engineAccepts evs (initialize engineAccepts w0) in
  (∀ hostname ruleId,
     Dict.get hostname (activeRules w) = Some ruleId
     ↔ ∃ charset, charsetRule ruleId hostname charset ∈ dynamicRules w) ∧
  (∀ r, r ∈ dynamicRules w → ∃ hostname charset, r = charsetRule (rule_id r) hostname charset) ∧
  NoDup (getAllRuleIds w) ∧
  (∀ i, i ∈ usedRuleIds w → i < ruleIdCounter w).
Proof.
  cbv zeta.
  pose proof (Inv_runEvents engineAccepts evs _ (Inv_initialize engineAccepts w0)) as HInv.
  revert HInv. generalize (runEvents engineAccepts evs (initialize engineAccepts w0)).
  intros w HInv. split_and!.
  - intros hostname ruleId. split.
    + intros Hget. by destruct (inv_active w HInv hostname ruleId Hget) as (_ & _ & Hrule).
    + intros [charset Hrule].
      destruct (inv_tracked w HInv _ Hrule) as (h & c & Heq & Hh). cbn in Heq, Hh.
      apply (f_equal (λ r, urlFilter (condition r))) in Heq. cbn in Heq.
      apply urlFilterFor_inj in Heq. by subst h.
  - intros r Hr. destruct (inv_tracked w HInv r Hr) as (h & c & Heq & _). by exists h, c.
  - apply (inv_ids w HInv).
  - apply (inv_used_lt w HInv).
Qed.

(** X10: operations on one hostname leave the others alone: after [initialize]
    and any sequence of events, [createCharsetRule] and [removeCharsetRule]
    for a hostname change neither the installed rules nor the map entry of any
    other hostname. *)
Theorem other_hostnames_untouched (w0 : World) (evs : list Event)
    (hostname charset other : string) :
  other ≠ hostname →
  let w := runEvents engineAccepts evs (initialize engineAccepts w0) in
  rulesFor other (createCharsetRule engineAccepts w hostname charset).1 = rulesFor other w ∧
  Dict.get other (activeRules (createCharsetRule engineAccepts w hostname charset).1)
    = Dict.get other (activeRules w) ∧
  rulesFor other (removeCharsetRule engineAccepts w hostname).1 = rulesFor other w ∧
  Dict.get other (activeRules (removeCharsetRule engineAccepts w hostname).1)
    = Dict.get other (activeRules w).
Proof.
  intros Hother. cbv zeta.
  pose proof (Inv_runEvents engineAccepts evs _ (Inv_initialize engineAccepts w0)) as HInv.
  revert HInv. generalize (runEvents engineAccepts evs (initialize engineAccepts w0)).
  intros w HInv.
  pose proof (Inv_remove_rulesFor engineAccepts w hostname other HInv Hother) as Hrules.
  pose proof (removeCharsetRule_get_other engineAccepts w hostname other Hother) as Hget.
  split_and!; [| | done | done].
  - destruct (Inv_create_cases engineAccepts w hostname charset HInv) as [-> | [-> _]];
      cbn [fst]; [| done].
    unfold rulesFor in *. cbn [installed dynamicRules]. rewrite filter_app, Hrules.
    rewrite filter_cons_False, filter_nil, app_nil_r; [done |].
    rewrite ruleFor_charsetRule. congruence.
  - destruct (Inv_create_cases engineAccepts w hostname charset HInv) as [-> | [-> _]];
      cbn [fst]; [| done].
    cbn [installed activeRules]. rewrite dict_get_set_ne by congruence. done.
Qed.

(** X11: installing and then removing leaves no rule behind: after
    [initialize] and any sequence of events, when the engine takes the rule,
    [createCharsetRule] followed by [removeCharsetRule] for the same hostname
    ends with the engine, the map and the in-use set that [removeCharsetRule]
    alone would leave; only the counter has moved on by one. *)
Theorem create_then_remove_leaves_no_rule (w0 : World) (evs : list Event)
    (hostname charset : string) :
  let w := runEvents engineAccepts evs (initialize engineAccepts w0) in
  let w1 := (removeCharsetRule engineAccepts w hostname).1 in
  let w2 := (createCharsetRule engineAccepts w hostname charset).1 in
  engineAccepts (dynamicRules w1) (charsetRule (ruleIdCounter w) hostname charset) = true →
  (removeCharsetRule engineAccepts w2 hostname).2 = true ∧
  dynamicRules (removeCharsetRule engineAccepts w2 hostname).1 = dynamicRules w1 ∧
  activeRules (removeCharsetRule engineAccepts w2 hostname).1 = activeRules w1 ∧
  usedRuleIds (removeCharsetRule engineAccepts w2 hostname).1 = usedRuleIds w1 ∧
  ruleIdCounter (removeCharsetRule engineAccepts w2 hostname).1 = S (ruleIdCounter w) ∧
  charset_settings (removeCharsetRule engineAccepts w2 hostname).1 = charset_settings w.
Proof.
  cbv zeta.
  pose proof (Inv_runEvents engineAccepts evs _ (Inv_initialize engineAccepts w0)) as HInv.
  revert HInv. generalize (runEvents engineAccepts evs (initialize engineAccepts w0)).
  intros w HInv Haccept.
  destruct (Inv_create_eq engineAccepts w hostname charset HInv Haccept) as [-> _].
  cbn [fst].
  pose proof (Inv_remove engineAccepts w hostname HInv) as HInv1.
  pose proof (Inv_settled _ _ HInv1 (removeCharsetRule_settles engineAccepts w hostname))
    as Hnone.
  pose proof (removeCharsetRule_counter engineAccepts w hostname) as Hcnt.
  pose proof (removeCharsetRule_keeps_settings engineAccepts w hostname) as Hsettings.
  pose proof (Inv_counter_free _ HInv1) as Hfree. rewrite Hcnt in Hfree.
  pose proof (inv_counter w HInv) as Hpos.
  set (w1 := (removeCharsetRule engineAccepts w hostname).1) in *.
  rewrite (removeCharsetRule_present engineAccepts _ hostname (ruleIdCounter w));
    [| cbn; apply dict_get_set_eq | lia].
  cbn [fst snd installed dynamicRules activeRules usedRuleIds ruleIdCounter charset_settings].
  split_and!; try done.
  - rewrite filter_app, filter_cons_False, filter_nil, app_nil_r.
    + apply filter_all. intros r Hr. rewrite list_elem_of_singleton. intros Hid.
      apply Hfree. rewrite <- Hid. by apply (list_elem_of_fmap_2 rule_id).
    + cbn. rewrite list_elem_of_singleton. tauto.
  - by apply dict_delete_set_absent.
  - apply set_eq. intros i. rewrite elem_of_difference, elem_of_union, elem_of_singleton.
    split; [tauto |]. intros Hi. split; [by right |]. intros ->.
    apply (inv_used_lt _ HInv1) in Hi. lia.
Qed.

(** X12: for a hostname the map does not hold, [createCharsetRule] removes
    nothing: on an engine that refuses nothing it only appends its rule.  A
    rule for the same hostname that the engine holds but the map does not know
    (left by an earlier worker) therefore stays, beside the new one. *)
Theorem untracked_hostname_only_appends (w : World) (hostname charset : string) :
  (∀ rules r, engineAccepts rules r = true) →
  Dict.get hostname (activeRules w) = None →
  ∃ ruleId,
    (createCharsetRule engineAccepts w hostname charset).2 = Some ruleId ∧
    (ruleId ∉ getAllRuleIds w) ∧
    dynamicRules (createCharsetRule engineAccepts w hostname charset).1
      = dynamicRules w ++ [charsetRule ruleId hostname charset] ∧
    rulesFor hostname (createCharsetRule engineAccepts w hostname charset).1
      = rulesFor hostname w ++ [charsetRule ruleId hostname charset] ∧
    Dict.get hostname (activeRules (createCharsetRule engineAccepts w hostname charset).1)
      = Some ruleId.
Proof.
  intros Haccept Hnone.
  assert (Settled hostname w) as Hsettled by (unfold Settled; by rewrite Hnone).
  destruct (createCharsetRule_run engineAccepts w hostname charset) as [n Hrun].
  apply createCharsetRuleFuel_settled_result in Hrun; [| done].
  destruct Hrun as (ruleId & _ & Hfresh & _ & _ & Hres).
  destruct (createCharsetRule engineAccepts w hostname charset).2 as [ruleId'|].
  - destruct Hres as (-> & _ & Hrules & Hactive & _). exists ruleId.
    split_and!; try done.
    + unfold rulesFor. rewrite Hrules, filter_app. f_equal.
      rewrite filter_cons_True by (by apply ruleFor_charsetRule). done.
    + rewrite Hactive. apply dict_get_set_eq.
  - destruct Hres as (Hrefused & _). by rewrite Haccept in Hrefused.
Qed.

End AgreementTheorems.

Lemma other_hostnames_untouched_witness :
  let w := runEvents acceptAll [EvMessage (updateCharset "b.com" "GBK")]
             (initialize acceptAll (newRuleManager [] None None)) in
  "b.com" ≠ "a.com" ∧
  rulesFor "b.com" (createCharsetRule acceptAll w "a.com" "Big5").1
    = [charsetRule 1 "b.com" "GBK"].
Proof.
  cbv zeta. assert ("b.com" ≠ "a.com") as Hne by discriminate.
  split; [exact Hne |].
  destruct (other_hostnames_untouched acceptAll (newRuleManager [] None None)
              [EvMessage (updateCharset "b.com" "GBK")] "a.com" "Big5" "b.com" Hne)
    as (Hrules & _).
  exact Hrules.
Defined.

Lemma create_then_remove_leaves_no_rule_witness :
  let w := initialize acceptAll (newRuleManager (staleRules 3 2) None None) in
  dynamicRules
    (removeCharsetRule acceptAll (createCharsetRule acceptAll w "a.com" "Big5").1 "a.com").1
    = [].
Proof.
  cbv zeta.
  destruct (create_then_remove_leaves_no_rule acceptAll
              (newRuleManager (staleRules 3 2) None None) [] "a.com" "Big5" eq_refl)
    as (_ & Hrules & _).
  exact Hrules.
Defined.

(** A worker that starts over an engine still holding a rule for [a.com]
    ends with two rules for [a.com]. *)
Lemma untracked_hostname_only_appends_witness :
  let w := newRuleManager [charsetRule 1 "a.com" "GBK"] None None in
  Dict.get "a.com" (activeRules w) = None ∧
  ∃ ruleId,
    rulesFor "a.com" (createCharsetRule acceptAll w "a.com" "UTF-8").1
      = [charsetRule 1 "a.com" "GBK"; charsetRule ruleId "a.com" "UTF-8"].
Proof.
  cbv zeta. split; [reflexivity |].
  destruct (untracked_hostname_only_appends acceptAll
              (newRuleManager [charsetRule 1 "a.com" "GBK"] None None) "a.com" "UTF-8"
              (λ _ _, eq_refl) eq_refl)
    as (ruleId & _ & _ & _ & Hrules & _).
  exists ruleId. exact Hrules.
Defined.

(** ** Startup, messages and menus *)

Section StartupFacts.
Variable engineAccepts : list Rule → Rule → bool.

Lemma restoreSavedRules_keeps_settings w :
  charset_settings (restoreSavedRules engineAccepts w).1 = charset_settings w.
Proof.
  apply (restoreSavedRules_preserves engineAccepts
           (λ w', charset_settings w' = charset_settings w)).
  - by rewrite initialize_eq.
  - intros w0 hostname charset <-. apply createCharsetRule_keeps_settings.
Qed.

(** The rules of the hostname after a successful installation. *)
Lemma Inv_create_rulesFor w hostname charset :
  Inv w →
  engineAccepts (dynamicRules (removeCharsetRule engineAccepts w hostname).1)
    (charsetRule (ruleIdCounter w) hostname charset) = true →
  rulesFor hostname (createCharsetRule engineAccepts w hostname charset).1
    = [charsetRule (ruleIdCounter w) hostname charset] ∧
  Dict.get hostname (activeRules (createCharsetRule engineAccepts w hostname charset).1)
    = Some (ruleIdCounter w).
Proof.
  intros HInv Haccept.
  destruct (Inv_create_eq engineAccepts w hostname charset HInv Haccept) as [-> _].
  cbn [fst]. split.
  - pose proof (Inv_remove_rulesFor_same engineAccepts w hostname HInv) as Hnone.
    unfold rulesFor in *. cbn [installed dynamicRules]. rewrite filter_app, Hnone.
    rewrite filter_cons_True by (by apply ruleFor_charsetRule). done.
  - cbn. apply dict_get_set_eq.
Qed.

Section AcceptingEngine.
Hypothesis engineAcceptsAll : ∀ rules r, engineAccepts rules r = true.

(** A restore is [initialize] alone when nothing is stored, and otherwise
    goes on from a state that the first entry and the stored map determine. *)
Lemma restoreSavedRules_first w :
  restoreSavedRules engineAccepts w =
    match readSettings w with
    | [] => (initialize engineAccepts w, 0)
    | (hostname, charset) :: entries =>
        foldl (λ (acc : World * nat) (entry : string * string),
                 let '(w', ruleId) := createCharsetRule engineAccepts acc.1 entry.1 entry.2 in
                 (w', if truthyId ruleId then S acc.2 else acc.2))
              ({| dynamicRules := [charsetRule 1 hostname charset];
                  charset_settings := charset_settings w;
                  active_rules := Some [(hostname, 1)];
                  ruleIdCounter := 2;
                  activeRules := [(hostname, 1)];
                  usedRuleIds := {[1]} ∪ ∅ |}, 1) entries
    end.
Proof.
  unfold restoreSavedRules, JsObject.entries.
  pose proof (Inv_initialize engineAccepts w) as HInv0.
  assert (readSettings (initialize engineAccepts w) = readSettings w) as ->
    by (by rewrite initialize_eq).
  destruct (readSettings w) as [|[hostname charset] entries]; [done |].
  cbn [foldl fst snd].
  destruct (Inv_create_eq engineAccepts _ hostname charset HInv0 (engineAcceptsAll _ _))
    as [-> _].
  rewrite initialize_eq.
  rewrite removeCharsetRule_absent by done. done.
Qed.

(** X13: restoring twice is restoring once: on an engine that refuses
    nothing, a second [restoreSavedRules] (a second startup) ends in the very
    state of the first, with the same count. *)
Theorem restoreSavedRules_idempotent (w : World) :
  restoreSavedRules engineAccepts (restoreSavedRules engineAccepts w).1
    = restoreSavedRules engineAccepts w.
Proof.
  pose proof (restoreSavedRules_keeps_settings w) as Hsettings.
  assert (readSettings (restoreSavedRules engineAccepts w).1 = readSettings w) as Hread.
  { unfold readSettings. by rewrite Hsettings. }
  rewrite (restoreSavedRules_first (restoreSavedRules engineAccepts w).1).
  rewrite Hread, Hsettings.
  destruct (readSettings w) as [|[hostname charset] entries] eqn:Hentries.
  - rewrite (restoreSavedRules_first w), Hentries. cbn [fst].
    by rewrite !initialize_eq.
  - by rewrite (restoreSavedRules_first w), Hentries.
Qed.

End AcceptingEngine.

(** X14: a charset set by message is what a later query and the engine show,
    and a removal by message takes both away.  After [initialize] and any
    sequence of events, for a hostname not named like a member of
    [Object.prototype], a non-empty charset and an engine that takes the rule:
    after [updateCharset] the [getCharsetForSite] message answers that charset
    and the engine holds exactly one rule for the hostname, with that charset;
    after [removeCharset] the query answers [null], the engine holds no rule
    for the hostname and the map no entry. *)
Theorem message_update_query_remove (w0 : World) (evs : list Event)
    (hostname charset : string) :
  let w := runEvents engineAccepts evs (initialize engineAccepts w0) in
  let w1 := (onMessage engineAccepts w (updateCharset hostname charset)).1 in
  let w2 := (onMessage engineAccepts w1 (removeCharset hostname)).1 in
  hostname ∉ objectPrototypeKeys →
  charset ≠ "" →
  engineAccepts (dynamicRules (removeCharsetRule engineAccepts w hostname).1)
    (charsetRule (ruleIdCounter w) hostname charset) = true →
  (onMessage engineAccepts w1 (getCharsetForSiteMsg hostname)).2
    = RespCharset (VString charset) ∧
  rulesFor hostname w1 = [charsetRule (ruleIdCounter w) hostname charset] ∧
  (onMessage engineAccepts w2 (getCharsetForSiteMsg hostname)).2 = RespCharset VNull ∧
  rulesFor hostname w2 = [] ∧
  Dict.get hostname (activeRules w2) = None.
Proof.
  cbv zeta.
  pose proof (Inv_runEvents engineAccepts evs _ (Inv_initialize engineAccepts w0)) as HInv.
  revert HInv. generalize (runEvents engineAccepts evs (initialize engineAccepts w0)).
  intros w HInv Hplain Hcharset Haccept. cbn [onMessage fst snd].
  destruct (Inv_create_rulesFor w hostname charset HInv Haccept) as [Hrules Hget].
  pose proof (Inv_create engineAccepts w hostname charset HInv) as HInv1.
  set (w1 := (createCharsetRule engineAccepts w hostname charset).1) in *.
  split_and!.
  - f_equal. unfold getCharsetForSite, saveCharsetForSite.
    rewrite readSettings_set, jsobject_get_own, jsobject_set_own by done.
    rewrite dict_get_set_eq. unfold js_or, truthy. by rewrite bool_decide_eq_false_2.
  - exact Hrules.
  - f_equal. unfold getCharsetForSite, removeCharsetForSite.
    rewrite readSettings_set, jsobject_get_own by done. unfold JsObject.delete.
    by rewrite dict_get_delete_eq.
  - apply (Inv_remove_rulesFor_same engineAccepts (saveCharsetForSite w1 hostname charset)).
    by apply Inv_set_settings.
  - apply (Inv_settled (removeCharsetRule engineAccepts
                          (saveCharsetForSite w1 hostname charset) hostname).1).
    + apply Inv_remove. by apply Inv_set_settings.
    + apply removeCharsetRule_settles.
Qed.

(** X15: the entries of the context menu and the handler of their clicks fit
    together: for every charset of [CHARSET_NAMES] the entry that
    [createContextMenus] makes for it does, when clicked, what the
    [updateCharset] message for that charset does, and reloads the tab; the
    reset entry does what the [removeCharset] message does; the two remaining
    entries (the parent and the separator) do nothing. *)
Theorem menu_entries_act_like_messages (w : World) (hostname : string) :
  (∀ menuId, menuId ∈ createContextMenus →
     menuId = "charset-switcher-main" ∨ menuId = "charset-separator" ∨
     menuId = "charset-reset" ∨
     ∃ charset name, (charset, name) ∈ CHARSET_NAMES ∧ menuId = "charset-" +:+ charset) ∧
  (∀ charset name, (charset, name) ∈ CHARSET_NAMES →
     ("charset-" +:+ charset) ∈ createContextMenus ∧
     handleMenuClick engineAccepts w ("charset-" +:+ charset) (Some hostname)
       = ((onMessage engineAccepts w (updateCharset hostname charset)).1, true)) ∧
  handleMenuClick engineAccepts w "charset-reset" (Some hostname)
    = ((onMessage engineAccepts w (removeCharset hostname)).1, true) ∧
  handleMenuClick engineAccepts w "charset-switcher-main" (Some hostname) = (w, false) ∧
  handleMenuClick engineAccepts w "charset-separator" (Some hostname) = (w, false).
Proof.
  split_and!; try reflexivity.
  - intros menuId Hin. unfold createContextMenus in Hin. cbn in Hin.
    repeat (apply elem_of_cons in Hin as [->|Hin];
            [first [ by left | by (right; left) | by (right; right; left)
                   | right; right; right; eexists _, _; split; [| reflexivity];
                     unfold CHARSET_NAMES;
                     repeat first [apply list_elem_of_here | apply list_elem_of_further] ] |]).
    by apply elem_of_nil in Hin.
  - intros charset name Hin. unfold CHARSET_NAMES in Hin.
    repeat (apply elem_of_cons in Hin as [[= -> ->]|Hin];
            [split; [apply (bool_decide_unpack _); vm_compute; exact I | reflexivity] |]).
    by apply elem_of_nil in Hin.
Qed.

End StartupFacts.

(** ** Installed rules against the stored intent *)

Lemma dict_get_of_elem {V} (d : list (string * V)) k v :
  NoDup (Dict.keys d) → (k, v) ∈ d → Dict.get k d = Some v.
Proof.
  induction d as [|[k' v'] t IH]; simpl; [by intros _ ?%elem_of_nil |].
  intros [Hnotin Hnd]%NoDup_cons [[= -> ->]|Hin]%elem_of_cons.
  - by rewrite decide_True.
  - rewrite decide_False; [by apply IH |]. intros ->. apply Hnotin.
    by apply (list_elem_of_fmap_2 fst) in Hin.
Qed.

(** What a truthy answer of [getCharsetForSite] is, for a plain hostname. *)
Lemma getCharsetForSite_truthy w hostname :
  hostname ∉ objectPrototypeKeys →
  truthy (getCharsetForSite w hostname) = true →
  ∃ charset, Dict.get hostname (readSettings w) = Some charset ∧ charset ≠ "" ∧
             getCharsetForSite w hostname = VString charset.
Proof.
  intros Hplain. unfold getCharsetForSite. rewrite jsobject_get_own by done.
  destruct (Dict.get hostname (readSettings w)) as [charset|]; [| done].
  unfold js_or. destruct (truthy (VString charset)) eqn:Htruthy; [| done].
  intros _. exists charset. split_and!; [done | | done].
  intros ->. done.
Qed.

Lemma NoDup_keys_jsobject_set o k v :
  NoDup (Dict.keys o) → NoDup (Dict.keys (JsObject.set o k v)).
Proof. unfold JsObject.set. case_bool_decide; [done | apply dict_keys_NoDup_set]. Qed.

Section IntentFacts.
Variable engineAccepts : list Rule → Rule → bool.

(** Where the rules come from that a state in agreement holds after
    [createCharsetRule]: they were there and belong to another hostname, or
    they are the new rule. *)
Lemma Inv_create_rules w hostname charset r :
  Inv w →
  r ∈ dynamicRules (createCharsetRule engineAccepts w hostname charset).1 →
  (r ∈ dynamicRules w ∧ ¬ ruleFor hostname r) ∨ r = charsetRule (rule_id r) hostname charset.
Proof.
  intros HInv.
  destruct (Inv_create_cases engineAccepts w hostname charset HInv) as [-> | [-> _]];
    cbn [fst installed dynamicRules generateUniqueRuleId set_manager].
  - intros [Hr| ->%list_elem_of_singleton]%elem_of_app; [| by right].
    left. by apply (Inv_remove_rules engineAccepts w hostname r HInv).
  - intros Hr. left. by apply (Inv_remove_rules engineAccepts w hostname r HInv).
Qed.

Lemma RulesFollowIntent_create w hostname charset :
  Inv w → RulesFollowIntent w →
  Dict.get hostname (readSettings w) = Some charset →
  RulesFollowIntent (createCharsetRule engineAccepts w hostname charset).1.
Proof.
  intros HInv Hfollow Hstored r Hr.
  assert (readSettings (createCharsetRule engineAccepts w hostname charset).1 = readSettings w)
    as ->.
  { unfold readSettings. by rewrite createCharsetRule_keeps_settings. }
  destruct (Inv_create_rules w hostname charset r HInv Hr) as [[Hold _]|Hnew].
  - by apply Hfollow.
  - by exists hostname, charset.
Qed.

Lemma RulesFollowIntent_update w hostname charset :
  Inv w → RulesFollowIntent w → hostname ∉ objectPrototypeKeys →
  RulesFollowIntent
    (saveCharsetForSite (createCharsetRule engineAccepts w hostname charset).1 hostname charset).
Proof.
  intros HInv Hfollow Hplain r Hr. unfold saveCharsetForSite in *.
  rewrite readSettings_set, jsobject_set_own by done.
  assert (readSettings (createCharsetRule engineAccepts w hostname charset).1 = readSettings w)
    as ->.
  { unfold readSettings. by rewrite createCharsetRule_keeps_settings. }
  cbn [set_charset_settings dynamicRules] in Hr.
  destruct (Inv_create_rules w hostname charset r HInv Hr) as [[Hold Hnot]|Hnew].
  - destruct (Hfollow r Hold) as (h & c & Heq & Hstored). exists h, c. split; [done |].
    rewrite dict_get_set_ne; [done |]. intros <-. apply Hnot. rewrite Heq.
    by apply ruleFor_charsetRule.
  - exists hostname, charset. split; [done | apply dict_get_set_eq].
Qed.

Lemma RulesFollowIntent_remove w hostname :
  Inv w → RulesFollowIntent w →
  RulesFollowIntent (removeCharsetForSite (removeCharsetRule engineAccepts w hostname).1 hostname).
Proof.
  intros HInv Hfollow r Hr. unfold removeCharsetForSite in *.
  rewrite readSettings_set. unfold JsObject.delete.
  assert (readSettings (removeCharsetRule engineAccepts w hostname).1 = readSettings w) as ->.
  { unfold readSettings. by rewrite removeCharsetRule_keeps_settings. }
  cbn [set_charset_settings dynamicRules] in Hr.
  apply (Inv_remove_rules engineAccepts w hostname r HInv) in Hr. destruct Hr as [Hold Hnot].
  destruct (Hfollow r Hold) as (h & c & Heq & Hstored). exists h, c. split; [done |].
  rewrite dict_get_delete_ne; [done |]. intros <-. apply Hnot. rewrite Heq.
  by apply ruleFor_charsetRule.
Qed.

Lemma RulesFollowIntent_restore w :
  NoDup (Dict.keys (readSettings w)) →
  RulesFollowIntent (restoreSavedRules engineAccepts w).1.
Proof.
  intros Hnd. unfold restoreSavedRules, JsObject.entries.
  assert (readSettings (initialize engineAccepts w) = readSettings w) as Hread
    by (by rewrite initialize_eq).
  rewrite Hread.
  assert (∀ entries (w1 : World) (n : nat),
            (∀ e, e ∈ entries → e ∈ readSettings w) →
            Inv w1 → RulesFollowIntent w1 → readSettings w1 = readSettings w →
            RulesFollowIntent
              (foldl (λ (acc : World * nat) (entry : string * string),
                        let '(w', ruleId) :=
                          createCharsetRule engineAccepts acc.1 entry.1 entry.2 in
                        (w', if truthyId ruleId then S acc.2 else acc.2))
                     (w1, n) entries).1) as Hloop.
  { induction entries as [|[hostname charset] entries IH];
      intros w1 n Hsub HInv Hfollow Hsame; [done |].
    cbn [foldl fst snd].
    pose proof (Inv_create engineAccepts w1 hostname charset HInv) as HInv'.
    pose proof (RulesFollowIntent_create w1 hostname charset HInv Hfollow) as Hfollow'.
    pose proof (createCharsetRule_keeps_settings engineAccepts w1 hostname charset) as Hkeep.
    destruct (createCharsetRule engineAccepts w1 hostname charset) as [w2 ruleId].
    cbn [fst] in *. apply IH.
    - intros e He. by apply Hsub, list_elem_of_further.
    - done.
    - apply Hfollow'. rewrite Hsame. apply dict_get_of_elem; [done |].
      apply Hsub, list_elem_of_here.
    - unfold readSettings in *. by rewrite Hkeep. }
  apply Hloop; [done | apply Inv_initialize | | done].
  intros r Hr. rewrite initialize_eq in Hr. by apply elem_of_nil in Hr.
Qed.

(** The bundle kept by every event. *)
Lemma intent_kept_by_event w ev :
  (∀ hostname, eventHostname ev = Some hostname → hostname ∉ objectPrototypeKeys) →
  Inv w ∧ NoDup (Dict.keys (readSettings w)) ∧ RulesFollowIntent w →
  Inv (handleEvent engineAccepts w ev) ∧
  NoDup (Dict.keys (readSettings (handleEvent engineAccepts w ev))) ∧
  RulesFollowIntent (handleEvent engineAccepts w ev).
Proof.
  intros Hplain (HInv & Hnd & Hfollow).
  split; [by apply Inv_handleEvent |].
  assert (∀ w', charset_settings w' = charset_settings w →
                NoDup (Dict.keys (readSettings w'))) as Hsame.
  { intros w' Heq. unfold readSettings in *. by rewrite Heq. }
  assert (RulesFollowIntent (initialize engineAccepts w)) as Hinit.
  { intros r Hr. rewrite initialize_eq in Hr. by apply elem_of_nil in Hr. }
  assert (charset_settings (initialize engineAccepts w) = charset_settings w) as Hinitset
    by (by rewrite initialize_eq).
  destruct ev as [reason| |menuId tabHostname|message|complete tabHostname];
    cbn [handleEvent].
  - unfold onInstalled. destruct reason.
    + split; [by apply Hsame | done].
    + split.
      * apply Hsame. by rewrite restoreSavedRules_keeps_settings.
      * apply RulesFollowIntent_restore. by apply Hsame.
    + split; [by apply Hsame | done].
  - unfold onStartup. split.
    + apply Hsame. apply restoreSavedRules_keeps_settings.
    + by apply RulesFollowIntent_restore.
  - unfold handleMenuClick. destruct tabHostname as [hostname|]; [| done].
    specialize (Hplain hostname eq_refl).
    destruct (String.prefix "charset-" menuId && negb (bool_decide (menuId = "charset-reset"))).
    + destruct (truthy _); [| done]. cbn [fst]. split.
      * unfold saveCharsetForSite. rewrite readSettings_set.
        apply NoDup_keys_jsobject_set, Hsame, createCharsetRule_keeps_settings.
      * by apply RulesFollowIntent_update.
    + case_bool_decide; [| done]. cbn [fst]. split.
      * unfold removeCharsetForSite. rewrite readSettings_set.
        apply dict_keys_NoDup_delete, Hsame, removeCharsetRule_keeps_settings.
      * by apply RulesFollowIntent_remove.
  - destruct message as [hostname charset|hostname|hostname|name]; cbn [onMessage fst]; try done.
    + specialize (Hplain hostname eq_refl). split.
      * unfold saveCharsetForSite. rewrite readSettings_set.
        apply NoDup_keys_jsobject_set, Hsame, createCharsetRule_keeps_settings.
      * by apply RulesFollowIntent_update.
    + split.
      * unfold removeCharsetForSite. rewrite readSettings_set.
        apply dict_keys_NoDup_delete, Hsame, removeCharsetRule_keeps_settings.
      * by apply RulesFollowIntent_remove.
  - unfold onTabUpdated. destruct complete; [| done].
    destruct tabHostname as [hostname|]; [| done].
    specialize (Hplain hostname eq_refl).
    destruct (truthy (getCharsetForSite w hostname)) eqn:Htruthy; [| done].
    destruct (negb (mapHas hostname (activeRules w))); [| done]. cbn [andb].
    destruct (getCharsetForSite_truthy w hostname Hplain Htruthy)
      as (charset & Hstored & _ & ->).
    cbn [js_toString]. split.
    + apply Hsame, createCharsetRule_keeps_settings.
    + by apply RulesFollowIntent_create.
Qed.

(** X16: the installed rules never contradict the stored intent.  After
    [initialize] and any sequence of events whose hostnames are not named like
    members of [Object.prototype], every rule in the engine is a rule of this
    extension for some hostname, and the charset it sets is the one stored for
    that hostname. *)
Theorem installed_rules_follow_stored_intent (w0 : World) (evs : list Event) :
  NoDup (Dict.keys (readSettings w0)) →
  plainHostnames evs →
  RulesFollowIntent (runEvents engineAccepts evs (initialize engineAccepts w0)).
Proof.
  intros Hnd Hplain.
  assert (Inv (initialize engineAccepts w0) ∧
          NoDup (Dict.keys (readSettings (initialize engineAccepts w0))) ∧
          RulesFollowIntent (initialize engineAccepts w0)) as Hstart.
  { split_and!; [apply Inv_initialize | by rewrite initialize_eq |].
    intros r Hr. rewrite initialize_eq in Hr. by apply elem_of_nil in Hr. }
  revert Hstart Hplain. generalize (initialize engineAccepts w0). clear Hnd.
  induction evs as [|ev evs IH]; intros w Hw Hplain; [by destruct Hw as (_ & _ & ?) |].
  unfold runEvents. cbn [foldl]. apply IH.
  - apply intent_kept_by_event; [| done].
    intros hostname Hh. apply (Hplain ev hostname); [apply list_elem_of_here | done].
  - intros ev' hostname Hev'. apply Hplain. by apply list_elem_of_further.
Qed.

(** X17: the tab handler puts a missing rule back and nothing more.  After
    [initialize] and any sequence of events, for a plain hostname with a
    stored charset and no entry in the map, on an engine that takes the rule,
    a completed tab load installs exactly one rule for the hostname, with the
    stored charset, records it in the map and leaves the stored intent alone;
    a second completed load then changes nothing.  Without a stored charset,
    or with an entry already in the map, the handler changes nothing. *)
Theorem tab_update_reinstalls_once (w0 : World) (evs : list Event)
    (hostname charset : string) :
  let w := runEvents engineAccepts evs (initialize engineAccepts w0) in
  let w' := onTabUpdated engineAccepts w true (Some hostname) in
  hostname ∉ objectPrototypeKeys →
  (Dict.get hostname (readSettings w) = Some charset → charset ≠ "" →
   Dict.get hostname (activeRules w) = None →
   engineAccepts (dynamicRules w) (charsetRule (ruleIdCounter w) hostname charset) = true →
     rulesFor hostname w' = [charsetRule (ruleIdCounter w) hostname charset] ∧
     Dict.get hostname (activeRules w') = Some (ruleIdCounter w) ∧
     charset_settings w' = charset_settings w ∧
     onTabUpdated engineAccepts w' true (Some hostname) = w') ∧
  (Dict.get hostname (readSettings w) = None → w' = w) ∧
  (∀ ruleId, Dict.get hostname (activeRules w) = Some ruleId → w' = w).
Proof.
  cbv zeta.
  pose proof (Inv_runEvents engineAccepts evs _ (Inv_initialize engineAccepts w0)) as HInv.
  revert HInv. generalize (runEvents engineAccepts evs (initialize engineAccepts w0)).
  intros w HInv Hplain. split_and!.
  - intros Hstored Hcharset Hnone Haccept.
    assert (getCharsetForSite w hostname = VString charset) as Hsaved.
    { unfold getCharsetForSite. rewrite jsobject_get_own, Hstored by done.
      unfold js_or, truthy. by rewrite bool_decide_eq_false_2. }
    assert (onTabUpdated engineAccepts w true (Some hostname)
            = (createCharsetRule engineAccepts w hostname charset).1) as Hstep.
    { unfold onTabUpdated. rewrite Hsaved. unfold mapHas. rewrite Hnone.
      cbn [truthy js_toString]. by rewrite bool_decide_eq_false_2. }
    rewrite Hstep.
    assert (removeCharsetRule engineAccepts w hostname = (w, false)) as Hremove.
    { apply removeCharsetRule_absent. by rewrite Hnone. }
    destruct (Inv_create_rulesFor engineAccepts w hostname charset HInv) as [Hrules Hget].
    { by rewrite Hremove. }
    split_and!; [done | done | apply createCharsetRule_keeps_settings |].
    unfold onTabUpdated, mapHas. rewrite Hget.
    by destruct (truthy _).
  - intros Hnone. unfold onTabUpdated, getCharsetForSite.
    rewrite jsobject_get_own, Hnone by done. done.
  - intros ruleId Hget. unfold onTabUpdated, mapHas. rewrite Hget.
    by destruct (truthy _).
Qed.

End IntentFacts.

(** ** The page-side helpers of [utils.js] *)

Section PageFacts.
Variable engineAccepts : list Rule → Rule → bool.

Lemma removeCharsetRule_set_settings w settings hostname :
  removeCharsetRule engineAccepts (set_charset_settings w settings) hostname
    = (set_charset_settings (removeCharsetRule engineAccepts w hostname).1 settings,
       (removeCharsetRule engineAccepts w hostname).2).
Proof.
  unfold removeCharsetRule. cbn [set_charset_settings activeRules dynamicRules].
  destruct (truthyId _); [| done].
  destruct (Dict.get hostname (activeRules w)); [| done].
  by rewrite updateDynamicRules_remove.
Qed.

(** The stored intent rides through [createCharsetRule] untouched and
    unread. *)
Lemma createCharsetRuleFuel_set_settings fuel w settings hostname charset :
  createCharsetRuleFuel engineAccepts fuel (set_charset_settings w settings) hostname charset
    = match createCharsetRuleFuel engineAccepts fuel w hostname charset with
      | Some (w', r, n) => Some (set_charset_settings w' settings, r, n)
      | None => None
      end.
Proof.
  revert w. induction fuel as [|fuel IH]; intros w; [done |].
  cbn [createCharsetRuleFuel]. rewrite removeCharsetRule_set_settings. cbn [fst].
  generalize (removeCharsetRule engineAccepts w hostname).1. clear w. intros w.
  unfold generateUniqueRuleId. cbn [set_charset_settings usedRuleIds ruleIdCounter activeRules].
  set (ruleId := skipUsed (S (size (usedRuleIds w))) (usedRuleIds w) (ruleIdCounter w)).
  cbn [set_manager dynamicRules].
  change (set_manager (set_charset_settings w settings) (S ruleId) (activeRules w)
            ({[ruleId]} ∪ usedRuleIds w))
    with (set_charset_settings
            (set_manager w (S ruleId) (activeRules w) ({[ruleId]} ∪ usedRuleIds w)) settings).
  change (dynamicRules (set_charset_settings w settings)) with (dynamicRules w).
  destruct (List.find _ (dynamicRules w)).
  - rewrite IH. by destruct (createCharsetRuleFuel _ _ _ _ _) as [[[? ?] ?]|].
  - destruct (updateDynamicRules engineAccepts [] _ (dynamicRules w)) as [[|]|rules].
    + rewrite IH. by destruct (createCharsetRuleFuel _ _ _ _ _) as [[[? ?] ?]|].
    + done.
    + done.
Qed.

Lemma createCharsetRule_set_settings w settings hostname charset :
  createCharsetRule engineAccepts (set_charset_settings w settings) hostname charset
    = (set_charset_settings (createCharsetRule engineAccepts w hostname charset).1 settings,
       (createCharsetRule engineAccepts w hostname charset).2).
Proof.
  unfold createCharsetRule.
  change (createFuel (set_charset_settings w settings)) with (createFuel w).
  rewrite createCharsetRuleFuel_set_settings.
  by destruct (createCharsetRuleFuel _ _ _ _ _) as [[[? ?] ?]|].
Qed.

(** X18: what the page does before it sends its message is already done by
    the background: [applyCharsetToPage] ends in the state that the
    [updateCharset] message alone produces, and [resetCharsetForPage] in the
    state that the [removeCharset] message alone produces. *)
Theorem page_helpers_equal_their_messages (w : World) (hostname charset : string) :
  applyCharsetToPage engineAccepts w hostname charset
    = (onMessage engineAccepts w (updateCharset hostname charset)).1 ∧
  resetCharsetForPage engineAccepts w hostname
    = (onMessage engineAccepts w (removeCharset hostname)).1.
Proof.
  unfold applyCharsetToPage, resetCharsetForPage. cbn [onMessage fst]. split.
  - unfold saveCharsetForSite at 2. rewrite createCharsetRule_set_settings. cbn [fst].
    unfold saveCharsetForSite. rewrite readSettings_set. cbn [set_charset_settings].
    assert (readSettings (createCharsetRule engineAccepts w hostname charset).1 = readSettings w)
      as ->.
    { unfold readSettings. by rewrite createCharsetRule_keeps_settings. }
    do 2 f_equal. unfold JsObject.set. case_bool_decide; [done | apply dict_set_set].
  - unfold removeCharsetForSite at 2. rewrite removeCharsetRule_set_settings. cbn [fst].
    unfold removeCharsetForSite. rewrite readSettings_set. cbn [set_charset_settings].
    assert (readSettings (removeCharsetRule engineAccepts w hostname).1 = readSettings w) as ->.
    { unfold readSettings. by rewrite removeCharsetRule_keeps_settings. }
    do 2 f_equal. unfold JsObject.delete. apply dict_delete_delete.
Qed.

(** X19: [resetCharsetExtension] is lasting: afterwards the engine holds no
    rule, the stored copy of the map is gone, every plain hostname reads as
    [null], and a later startup finds nothing to restore and leaves that
    state as it is. *)
Theorem reset_extension_is_lasting (w : World) :
  let w' := resetCharsetExtension engineAccepts w in
  dynamicRules w' = [] ∧
  getActiveRules w' = [] ∧
  (∀ hostname, hostname ∉ objectPrototypeKeys → getCharsetForSite w' hostname = VNull) ∧
  onStartup engineAccepts w' = w' ∧
  (∀ hostname complete, hostname ∉ objectPrototypeKeys →
     onTabUpdated engineAccepts w' complete (Some hostname) = w').
Proof.
  cbv zeta. unfold resetCharsetExtension. rewrite initialize_eq.
  cbn [set_charset_settings set_active_rules dynamicRules charset_settings active_rules
       ruleIdCounter activeRules usedRuleIds].
  split_and!; [done | done | | done |].
  - intros hostname Hplain. unfold getCharsetForSite. by rewrite jsobject_get_own.
  - intros hostname complete Hplain. unfold onTabUpdated, getCharsetForSite.
    rewrite jsobject_get_own by done. by destruct complete.
Qed.

End PageFacts.

(** X20: [isValidCharset] and the check of the menu handler accept the same
    strings: the nine supported labels, and besides them the names of the
    members every object inherits, such as [constructor]. *)
Theorem isValidCharset_matches_menu_check (charset : string) :
  isValidCharset charset = truthy (JsObject.get SUPPORTED_CHARSETS charset) ∧
  (isValidCharset charset = true
   ↔ charset ∈ Dict.keys SUPPORTED_CHARSETS ∨ charset ∈ objectPrototypeKeys).
Proof.
  unfold isValidCharset, js_in, mapHas, JsObject.get. split.
  - destruct (Dict.get charset SUPPORTED_CHARSETS) as [label|] eqn:Hget.
    + apply dict_get_elem in Hget. unfold SUPPORTED_CHARSETS in Hget.
      repeat (apply elem_of_cons in Hget as [[= -> ->]|Hget]; [reflexivity |]).
      by apply elem_of_nil in Hget.
    + cbn [orb]. by case_bool_decide.
  - rewrite orb_true_iff, bool_decide_eq_true.
    destruct (Dict.get charset SUPPORTED_CHARSETS) as [label|] eqn:Hget.
    + split; [intros _; left | by left].
      destruct (decide (charset ∈ Dict.keys SUPPORTED_CHARSETS)) as [|Hnot]; [done |].
      apply dict_get_None in Hnot. congruence.
    + apply dict_get_None in Hget. split; [intros [?|?]; [done | by right] |].
      intros [?|?]; [done | by right].
Qed.

(** ** The two ways into a restore *)

Section InstallFacts.
Variable engineAccepts : list Rule → Rule → bool.

(** X21: [restoreSavedRules] begins with [initialize], and initialising twice
    is initialising once; so the [onInstalled] listener, which calls
    [initialize] itself before it restores after an update, ends in the very
    state of the [onStartup] listener.  For every other reason it stops after
    [initialize]: no rule is installed and the stored intent is left as it
    was. *)
Theorem update_install_equals_startup (w : World) :
  initialize engineAccepts (initialize engineAccepts w) = initialize engineAccepts w ∧
  onInstalled engineAccepts w ReasonUpdate = onStartup engineAccepts w ∧
  (∀ reason, reason ≠ ReasonUpdate →
     dynamicRules (onInstalled engineAccepts w reason) = [] ∧
     activeRules (onInstalled engineAccepts w reason) = [] ∧
     readSettings (onInstalled engineAccepts w reason) = readSettings w).
Proof.
  assert (initialize engineAccepts (initialize engineAccepts w) = initialize engineAccepts w)
    as Hidem by (by rewrite !initialize_eq).
  split_and!; [exact Hidem | |].
  - unfold onInstalled, onStartup, restoreSavedRules. cbv zeta. by rewrite Hidem.
  - intros reason Hreason. unfold onInstalled. cbv zeta.
    destruct reason; [| done |]; by rewrite initialize_eq.
Qed.

End InstallFacts.

(** ** Instances *)

Lemma issued_ids_are_truthy_witness :
  let w := runOps acceptAll [OpCreate "b.com" "Big5"] (newRuleManager (staleRules 1 2) None None) in
  (createCharsetRule acceptAll w "a.com" "GBK").2 = Some 4 ∧
  truthyId (createCharsetRule acceptAll w "a.com" "GBK").2 = true.
Proof.
  cbv zeta. split; [reflexivity |].
  exact (proj2 (issued_ids_are_truthy acceptAll (staleRules 1 2) None None
                  [OpCreate "b.com" "Big5"] "a.com" "GBK" 4 eq_refl)).
Defined.

Lemma stored_snapshot_follows_map_witness :
  let w := newRuleManager [] None (Some [("old.example", 9)]) in
  (createCharsetRule acceptAll w "a.com" "GBK").2 = Some 1 ∧
  getActiveRules (createCharsetRule acceptAll w "a.com" "GBK").1 = [("a.com", 1)].
Proof.
  cbv zeta. split; [reflexivity |].
  exact (proj1 (stored_snapshot_follows_map acceptAll
                  (newRuleManager [] None (Some [("old.example", 9)])) "a.com" "GBK")
               1 eq_refl).
Defined.

Lemma map_and_engine_agree_witness :
  let w := runEvents acceptAll [EvMessage (updateCharset "a.com" "GBK")]
             (initialize acceptAll (newRuleManager (staleRules 1 2) None None)) in
  Dict.get "a.com" (activeRules w) = Some 1 ∧
  ∃ charset, charsetRule 1 "a.com" charset ∈ dynamicRules w.
Proof.
  cbv zeta. split; [reflexivity |].
  destruct (map_and_engine_agree acceptAll (newRuleManager (staleRules 1 2) None None)
              [EvMessage (updateCharset "a.com" "GBK")]) as (Hiff & _).
  exact (proj1 (Hiff "a.com" 1) eq_refl).
Defined.

Lemma restoreSavedRules_idempotent_witness :
  let w := newRuleManager (staleRules 5 3)
             (Some [("a.com", "GBK"); ("b.com", "UTF-8")]) None in
  restoreSavedRules acceptAll (restoreSavedRules acceptAll w).1 = restoreSavedRules acceptAll w.
Proof.
  cbv zeta.
  exact (restoreSavedRules_idempotent acceptAll (λ _ _, eq_refl)
           (newRuleManager (staleRules 5 3)
              (Some [("a.com", "GBK"); ("b.com", "UTF-8")]) None)).
Defined.

Lemma message_update_query_remove_witness :
  let w := initialize acceptAll (newRuleManager (staleRules 1 2) None None) in
  let w1 := (onMessage acceptAll w (updateCharset "a.com" "GBK")).1 in
  ("a.com" ∉ objectPrototypeKeys) ∧ "GBK" ≠ "" ∧
  (onMessage acceptAll w1 (getCharsetForSiteMsg "a.com")).2 = RespCharset (VString "GBK") ∧
  rulesFor "a.com" w1 = [charsetRule 1 "a.com" "GBK"].
Proof.
  cbv zeta.
  assert ("a.com" ∉ objectPrototypeKeys) as Hplain.
  { apply (bool_decide_unpack _). vm_compute. exact I. }
  assert ("GBK" ≠ "") as Hcharset by discriminate.
  split; [exact Hplain |]. split; [exact Hcharset |].
  destruct (message_update_query_remove acceptAll (newRuleManager (staleRules 1 2) None None)
              [] "a.com" "GBK" Hplain Hcharset eq_refl) as (Hquery & Hrules & _).
  split; [exact Hquery | exact Hrules].
Defined.

Lemma menu_entries_act_like_messages_witness :
  ("Big5", "Big5 (繁体中文)") ∈ CHARSET_NAMES ∧
  handleMenuClick acceptAll (newRuleManager [] None None) "charset-Big5" (Some "a.com")
    = ((onMessage acceptAll (newRuleManager [] None None) (updateCharset "a.com" "Big5")).1, true).
Proof.
  assert (("Big5", "Big5 (繁体中文)") ∈ CHARSET_NAMES) as Hin.
  { apply (bool_decide_unpack _). vm_compute. exact I. }
  split; [exact Hin |].
  destruct (menu_entries_act_like_messages acceptAll (newRuleManager [] None None) "a.com")
    as (_ & Hitems & _).
  exact (proj2 (Hitems "Big5" _ Hin)).
Defined.

Lemma installed_rules_follow_stored_intent_witness :
  let w0 := newRuleManager (staleRules 1 2) (Some [("b.com", "Big5")]) None in
  let evs := [EvStartup; EvMessage (updateCharset "a.com" "GBK");
              EvMenuClick "charset-UTF-8" (Some "b.com")] in
  NoDup (Dict.keys (readSettings w0)) ∧
  plainHostnames evs ∧
  RulesFollowIntent (runEvents acceptAll evs (initialize acceptAll w0)).
Proof.
  cbv zeta.
  assert (NoDup (Dict.keys (readSettings
            (newRuleManager (staleRules 1 2) (Some [("b.com", "Big5")]) None)))) as Hnd.
  { apply (bool_decide_unpack _). vm_compute. exact I. }
  assert (plainHostnames [EvStartup; EvMessage (updateCharset "a.com" "GBK");
                          EvMenuClick "charset-UTF-8" (Some "b.com")]) as Hplain.
  { intros ev hostname Hev Hh.
    repeat (apply elem_of_cons in Hev as [->|Hev];
            [cbn in Hh; first [discriminate Hh
                              | injection Hh as <-; apply (bool_decide_unpack _);
                                vm_compute; exact I] |]).
    by apply elem_of_nil in Hev. }
  split; [exact Hnd |]. split; [exact Hplain |].
  exact (installed_rules_follow_stored_intent acceptAll _ _ Hnd Hplain).
Defined.

Lemma tab_update_reinstalls_once_witness :
  let w := initialize acceptAll (newRuleManager [] (Some [("shop.example", "Big5")]) None) in
  ("shop.example" ∉ objectPrototypeKeys) ∧
  Dict.get "shop.example" (readSettings w) = Some "Big5" ∧
  rulesFor "shop.example" (onTabUpdated acceptAll w true (Some "shop.example"))
    = [charsetRule 1 "shop.example" "Big5"].
Proof.
  cbv zeta.
  assert ("shop.example" ∉ objectPrototypeKeys) as Hplain.
  { apply (bool_decide_unpack _). vm_compute. exact I. }
  split; [exact Hplain |]. split; [reflexivity |].
  destruct (tab_update_reinstalls_once acceptAll
              (newRuleManager [] (Some [("shop.example", "Big5")]) None) []
              "shop.example" "Big5" Hplain) as (Hreinstall & _).
  assert ("Big5" ≠ "") as Hcharset by discriminate.
  exact (proj1 (Hreinstall eq_refl Hcharset eq_refl eq_refl)).
Defined.

Lemma reset_extension_is_lasting_witness :
  let w := (onMessage acceptAll (newRuleManager [] None None) (updateCharset "a.com" "GBK")).1 in
  ("a.com" ∉ objectPrototypeKeys) ∧
  getCharsetForSite (resetCharsetExtension acceptAll w) "a.com" = VNull.
Proof.
  cbv zeta.
  assert ("a.com" ∉ objectPrototypeKeys) as Hplain.
  { apply (bool_decide_unpack _). vm_compute. exact I. }
  split; [exact Hplain |].
  destruct (reset_extension_is_lasting acceptAll
              (onMessage acceptAll (newRuleManager [] None None) (updateCharset "a.com" "GBK")).1)
    as (_ & _ & Hnull & _).
  exact (Hnull "a.com" Hplain).
Defined.

Lemma update_install_equals_startup_witness :
  let w := newRuleManager (staleRules 1 2) (Some [("a.com", "GBK")]) None in
  ReasonInstall ≠ ReasonUpdate ∧
  dynamicRules (onInstalled acceptAll w ReasonInstall) = [] ∧
  readSettings (onInstalled acceptAll w ReasonInstall) = [("a.com", "GBK")].
Proof.
  cbv zeta.
  assert (ReasonInstall ≠ ReasonUpdate) as Hreason by discriminate.
  split; [exact Hreason |].
  destruct (update_install_equals_startup acceptAll
              (newRuleManager (staleRules 1 2) (Some [("a.com", "GBK")]) None))
    as (_ & _ & Hother).
  destruct (Hother ReasonInstall Hreason) as (Hrules & _ & Hsettings).
  split; [exact Hrules | exact Hsettings].
Defined.
